(** * Frequency regulation setup: simulation of grid frequency response

    Shallow embedding of [content/Frequency regulation setup.py] and the
    properties of its simulation function, its right-hand side and its nadir
    helper.

    Numbers.  The Python code computes with binary64 floats.  Here a number
    is a rational ([Q]): decimal literals denote their decimal value and the
    four operations are exact.  What exact arithmetic cannot hold is kept
    visible instead of being dropped:
    - a division of Python scalars by zero raises [ZeroDivisionError];
    - a division of numpy scalars by zero yields [inf] or [nan]; such a
      value is [None] in the type [float64] of the derivative vector;
    - [np.inf], which the docstring allows for [T_ΔP], is a value of its own.
    The floor of scenario B is evaluated in binary64 as well
    ([floor_binary64]). *)

From Stdlib Require Import String Bool ZArith QArith List Lia Lqa.
From Stdlib Require Import Floats.
Import ListNotations.
Local Open Scope Q_scope.

(** ** Python outcomes *)

Inductive exn : Type :=
| ZeroDivisionError
| TypeError
| ValueError
| IndexError.

Inductive result (A : Type) : Type :=
| Ok (a : A)
| Raise (e : exn).
Arguments Ok {A} a.
Arguments Raise {A} e.

Definition bind {A B : Type} (c : result A) (k : A -> result B) : result B :=
  match c with
  | Ok a => k a
  | Raise e => Raise e
  end.

Declare Scope py_scope.
Delimit Scope py_scope with py.
Notation "x <- c ;; k" := (bind c (fun x => k))
  (at level 100, c at next level, right associativity) : py_scope.
Notation "' p <- c ;; k" := (bind c (fun x => let 'p := x in k))
  (at level 100, p pattern, c at next level, right associativity) : py_scope.
Local Open Scope py_scope.

(** [l[i]]: a negative index counts from the end, [IndexError] out of
    range. *)
Definition getitem {A : Type} (l : list A) (i : Z) : result A :=
  let j := (if i <? 0 then i + Z.of_nat (length l) else i)%Z in
  if (j <? 0)%Z then Raise IndexError
  else match nth_error l (Z.to_nat j) with
       | Some a => Ok a
       | None => Raise IndexError
       end.

(** [a / b] on Python scalars. *)
Definition truediv (a b : Q) : result Q :=
  if Qeq_bool b 0 then Raise ZeroDivisionError else Ok (a / b).

(** [a < b] as a boolean. *)
Definition Qlt_bool (a b : Q) : bool := negb (Qle_bool b a).

(** ** Helper: [find_nadir] *)

(** The scan of [np.argmin]: the running minimum is replaced only by a
    strictly smaller sample, so the first occurrence wins. *)
Fixpoint argmin_from (i_best : nat) (best : Q) (i : nat) (l : list Q) : nat :=
  match l with
  | [] => i_best
  | v :: l' =>
      if Qlt_bool v best then argmin_from i v (S i) l'
      else argmin_from i_best best (S i) l'
  end.

(** [np.argmin(f)]: [ValueError] on an empty sequence. *)
Definition argmin (f : list Q) : result nat :=
  match f with
  | [] => Raise ValueError
  | v :: l => Ok (argmin_from 0 v 1 l)
  end.

(** [find_nadir(f)] returns the pair [(i_nadir, f_nadir)]; both components
    are [None] when no nadir is found. *)
Definition find_nadir (f : list Q) : result (option nat * option Q) :=
  i_min <- argmin f ;;
  if (Z.of_nat i_min <? Z.of_nat (length f) - 1)%Z then
    if (0 <? Z.of_nat i_min)%Z then
      f_min <- getitem f (Z.of_nat i_min) ;;
      f_end <- getitem f (-1) ;;
      if Qle_bool f_min (f_end - 0.001) then
        (* i_nadir = i_min; f_nadir = f[i_min] *)
        Ok (Some i_min, Some f_min)
      else Ok (None, None)
    else Ok (None, None)
  else Ok (None, None).

(** ** Constants *)

(** Base frequency (Hz). *)
Definition f0 : Q := 50.

(** [numpy.pi] is the binary64 number 0x1.921fb54442d18p+1; this is its
    exact value. *)
Definition pi : Q := 884279719003555 # 281474976710656.

Definition Ω0 : Q := 2 * pi * f0.

(** Simulation duration: initial and final time (s). *)
Definition t_ini : Q := -1.
Definition t_fin : Q := 10.

(** ** Values of [T_ΔP]

    [T_ΔP] is a duration in seconds, [np.inf], or (when
    [freq_response_interact] lets it through) the option string itself. *)
Inductive pyobj : Type :=
| Num (d : Q)
| Inf
| Str (s : string).

(** [t < T] for a float [t]: a float and a string do not compare. *)
Definition lt_obj (t : Q) (T : pyobj) : result bool :=
  match T with
  | Num d => Ok (Qlt_bool t d)
  | Inf => Ok true
  | Str _ => Raise TypeError
  end.

(** [T == s] for a string literal [s]: a number never equals a string. *)
Definition eq_str (T : pyobj) (s : string) : bool :=
  match T with
  | Str s' => String.eqb s' s
  | _ => false
  end.

(** ** numpy scalars of the derivative vector *)

(** A binary64 value: [Some q] when finite, [None] for [inf], [-inf] and
    [nan]. *)
Definition float64 : Type := option Q.

(** [a / b] with numpy scalars: no exception, a zero divisor gives a
    non-finite value (and a warning). *)
Definition np_div (a : float64) (b : Q) : float64 :=
  match a with
  | Some a' => if Qeq_bool b 0 then None else Some (a' / b)
  | None => None
  end.

(** ** The integrator and the plotting layer, as external calls *)

(** The arguments of [solve_ivp(fun, t_span, y0, method, max_step, rtol)]. *)
Record ivp_call : Type := {
  rhs : Q -> list Q -> result (list float64);
  t_span : Q * Q;
  y0 : list Q;
  method : string;
  max_step : Q;
  rtol : Q
}.

(** What the code reads of the returned solution: [sol.t] and the rows of
    [sol.y], one row per state component. *)
Record OdeResult : Type := {
  sol_t : list Q;
  sol_y : list (list Q)
}.

(** The arguments of [plot_freq_response], whose body only drives
    matplotlib (and calls [find_nadir] on [f]): the solution, the simulation
    parameters and the two optional axis limits. *)
Record plot_call : Type := {
  plot_t : list Q;
  plot_f : list Q;
  plot_P_fcr : list Q;
  plot_f_lim : Q;
  plot_ΔP_load : Q;
  plot_T_ΔP : pyobj;
  plot_H : Q;
  plot_s : Q;
  plot_T_fcr : Q;
  plot_fcr : bool;
  plot_fcr_lag : bool;
  plot_f_min : option Q;
  plot_P_max : option Q
}.

(** A computation that may call the integrator and the plot function
    before it returns or raises. *)
Inductive prog (A : Type) : Type :=
| Return (r : result A)
| Solve_ivp (c : ivp_call) (k : OdeResult -> prog A)
| Plot_freq_response (c : plot_call) (k : unit -> prog A).
Arguments Return {A} r.
Arguments Solve_ivp {A} c k.
Arguments Plot_freq_response {A} c k.

Fixpoint pbind {A B : Type} (p : prog A) (k : A -> prog B) : prog B :=
  match p with
  | Return (Ok a) => k a
  | Return (Raise e) => Return (Raise e)
  | Solve_ivp c k' => Solve_ivp c (fun sol => pbind (k' sol) k)
  | Plot_freq_response c k' => Plot_freq_response c (fun u => pbind (k' u) k)
  end.

Declare Scope prog_scope.
Delimit Scope prog_scope with prog.
Notation "x <- c ;; k" := (pbind c (fun x => k))
  (at level 100, c at next level, right associativity) : prog_scope.
Notation "' p <- c ;; k" := (pbind c (fun x => let 'p := x in k))
  (at level 100, p pattern, c at next level, right associativity) : prog_scope.

(** [solve_ivp(...)] as a computation: one call, the solution returned. *)
Definition solve_ivp (c : ivp_call) : prog OdeResult :=
  Solve_ivp c (fun sol => Return (Ok sol)).

(** Running a computation against an integrator and a plot function; an
    exception of either propagates. *)
Fixpoint run {A : Type} (integrate : ivp_call -> result OdeResult)
    (plot : plot_call -> result unit) (p : prog A) : result A :=
  match p with
  | Return r => r
  | Solve_ivp c k => sol <- integrate c ;; run integrate plot (k sol)
  | Plot_freq_response c k => u <- plot c ;; run integrate plot (k u)
  end.

(** Pure steps inside a computation. *)
Definition lift {A : Type} (r : result A) : prog A := Return r.

(** ** Simulation function *)

(** [Sg = 1], so that ΔP is in pu (a local constant of
    [sim_freq_response]). *)
Definition Sg : Q := 1.

(** The branch on [fcr] at the head of [sim_freq_response]: the droop gain
    [K] and the final frequency [f_lim]. *)
Definition droop_gain (fcr : bool) (ΔP_load s : Q) : result (Q * Q) :=
  if fcr then
    K <- truediv Sg (f0 * s) ;;
    q <- truediv ΔP_load K ;;
    Ok (K, f0 - q)
  else
    Ok (0, 0) (* 0 Hz = blackout *).

Section Closure.
(** The names the nested function [fder] captures. *)
Variables (ΔP_load : Q) (T_ΔP : pyobj) (T_fcr : Q) (fcr_lag : bool).
Variables (J K : Q).

(** [P_load] at time [t]: 0, replaced by [ΔP_load] if
    [t>=0 and t<T_ΔP]; the second comparison is only evaluated when the
    first holds. *)
Definition P_load_at (t : Q) : result Q :=
  in_step <- (if Qle_bool 0 t then lt_obj t T_ΔP else Ok false) ;;
  Ok (if in_step : bool then ΔP_load else 0).

(** The swing equation: [f_dot] from the regulation power. *)
Definition swing (t f P_fcr : Q) : result float64 :=
  let Ω := 2 * pi * f in
  P_load <- P_load_at t ;;
  let ΔP := - P_load + P_fcr in (* net excess of mechanical power *)
  let Ω_dot := np_div (Some ΔP) (J * Ω) in
  Ok (np_div Ω_dot (2 * pi)).

(** ODE dynamics for grid with optional frequency regulation. *)
Definition fder (t : Q) (x : list Q) : result (list float64) :=
  f <- getitem x 0 ;;
  let Δf := f - f0 in
  if fcr_lag then
    P_fcr <- getitem x 1 ;;
    (* first order filter of FCR power *)
    let P_fcr_dot := np_div (Some (- K * Δf - P_fcr)) T_fcr in
    f_dot <- swing t f P_fcr ;;
    Ok [f_dot; P_fcr_dot]
  else
    let P_fcr := - K * Δf in
    f_dot <- swing t f P_fcr ;;
    Ok [f_dot].
End Closure.

(** Initial conditions. *)
Definition f_ini : Q := 50.
Definition x_ini (fcr_lag : bool) : list Q :=
  if fcr_lag then
    let P_fcr_ini := 0 in
    [f_ini; P_fcr_ini]
  else [f_ini].

(** Extract simulation output: [t, f, P_fcr, f_lim]. *)
Definition extract_output (fcr_lag : bool) (K f_lim : Q) (sol : OdeResult)
  : result (list Q * list Q * list Q * Q) :=
  f <- getitem (sol_y sol) 0 ;;
  P_fcr <- (if fcr_lag then getitem (sol_y sol) 1
            else Ok (map (fun fi => - K * (fi - f0)) f)) ;;
  Ok (sol_t sol, f, P_fcr, f_lim).

(** Simulate frequency response from FCR. *)
Definition sim_freq_response (ΔP_load : Q) (T_ΔP : pyobj) (H s T_fcr : Q)
    (fcr fcr_lag : bool) : prog (list Q * list Q * list Q * Q) :=
  (let J := 2 * H * Sg / Ω0 ^ 2 in
   '(K, f_lim) <- lift (droop_gain fcr ΔP_load s) ;;
   sol <- solve_ivp {| rhs := fder ΔP_load T_ΔP T_fcr fcr_lag J K;
                       t_span := (t_ini, t_fin);
                       y0 := x_ini fcr_lag;
                       method := "BDF";
                       max_step := (t_fin - t_ini) / 100;
                       rtol := 1e-4 |} ;;
   lift (extract_output fcr_lag K f_lim sol))%prog.

(** ** Interactive plot function *)

Definition plot_freq_response (t f P_fcr : list Q) (f_lim ΔP_load : Q)
    (T_ΔP : pyobj) (H s T_fcr : Q) (fcr fcr_lag : bool)
    (f_min P_max : option Q) : prog unit :=
  Plot_freq_response
    {| plot_t := t; plot_f := f; plot_P_fcr := P_fcr; plot_f_lim := f_lim;
       plot_ΔP_load := ΔP_load; plot_T_ΔP := T_ΔP; plot_H := H; plot_s := s;
       plot_T_fcr := T_fcr; plot_fcr := fcr; plot_fcr_lag := fcr_lag;
       plot_f_min := f_min; plot_P_max := P_max |}
    (fun u => Return (Ok u)).

(** Interactive plot of frequency response, meant to be given to
    [ipywidgets.interact].  In the last branch of the test on [T_ΔP] the
    source evaluates [ValueError("T_ΔP should be 'permanent' or '4 s'")] as
    an expression statement: the exception is built and dropped, and
    [T_ΔP] keeps the value it came with. *)
Definition freq_response_interact (ΔP_load H s T_fcr : Q)
    (fcr fcr_lag zoom_freq : bool) (T_ΔP : pyobj) : prog unit :=
  (let T_ΔP :=
     if eq_str T_ΔP "permanent" then Num t_fin
     else if eq_str T_ΔP "4 s" then Num 4
     else let _ := ValueError in T_ΔP in
   (* 1) Simulate *)
   '(t, f, P_fcr, f_lim) <-
     sim_freq_response ΔP_load T_ΔP H s T_fcr fcr fcr_lag ;;
   (* 2) Plot *)
   let f_min := if zoom_freq : bool then 49 else 0 in
   let P_max := 0.14 in
   plot_freq_response t f P_fcr f_lim ΔP_load T_ΔP H s T_fcr fcr fcr_lag
     (Some f_min) (Some P_max))%prog.

(** ** A fixed-step integrator

    The code's integrator is scipy's.  This small explicit one (forward
    Euler: [n] steps of size [max_step] from the start of [t_span]) is used
    to run the model on concrete inputs.  It stops early when a derivative
    is not finite or has the wrong length, and an exception of the
    right-hand side propagates. *)
Fixpoint euler_step (h : Q) (x : list Q) (d : list float64)
  : option (list Q) :=
  match x, d with
  | [], [] => Some []
  | xi :: x', Some di :: d' =>
      match euler_step h x' d' with
      | Some r => Some (Qred (xi + h * di) :: r)
      | None => None
      end
  | _, _ => None
  end.

Fixpoint euler_loop (fn : Q -> list Q -> result (list float64)) (h : Q)
    (n : nat) (t : Q) (x : list Q) : result (list (Q * list Q)) :=
  match n with
  | O => Ok [(t, x)]
  | S n' =>
      d <- fn t x ;;
      match euler_step h x d with
      | Some x' =>
          rest <- euler_loop fn h n' (Qred (t + h)) x' ;;
          Ok ((t, x) :: rest)
      | None => Ok [(t, x)]
      end
  end.

(** Row [k] of the trajectory: component [k] of every state. *)
Definition row (traj : list (Q * list Q)) (k : nat) : list Q :=
  map (fun st => nth k (snd st) 0) traj.

Definition euler (n : nat) (c : ivp_call) : result OdeResult :=
  traj <- euler_loop (rhs c) (max_step c) n (fst (t_span c)) (y0 c) ;;
  Ok {| sol_t := map fst traj;
        sol_y := map (row traj) (seq 0 (length (y0 c))) |}.

(** A plot function that draws nothing. *)
Definition no_plot (c : plot_call) : result unit := Ok tt.

(** ** What [plot_freq_response] computes

    The drawing calls belong to matplotlib.  The values below are the ones
    the body of [plot_freq_response] computes from its arguments before it
    draws them. *)


(** [t > T] for one sample of the array [t] and a duration [T]. *)
Definition gt_duration (ti : Q) (T : pyobj) : bool :=
  match T with
  | Num d => Qlt_bool d ti
  | _ => false
  end.

(** [P_load = np.where((t<0) | (t>T_ΔP), 0.0, ΔP_load)]: the load excess
    drawn in the power plot.  An array and a string do not compare. *)
Definition shown_P_load (t : list Q) (T_ΔP : pyobj) (ΔP_load : Q)
  : result (list Q) :=
  match T_ΔP with
  | Str _ => Raise TypeError
  | _ =>
      Ok (map (fun ti =>
                 if Qlt_bool ti 0 || gt_duration ti T_ΔP then 0
                 else ΔP_load) t)
  end.

(** Initial RoCoF linear trend: [RoCoF = -f0 /(2*H) * ΔP_load]. *)
Definition RoCoF (H ΔP_load : Q) : result Q :=
  q <- truediv (- f0) (2 * H) ;;
  Ok (q * ΔP_load).

(** The nadir marker: [find_nadir(f)], then [t[i_nadir]] when an index is
    returned. *)
Definition nadir_marker (t f : list Q) : result (option (Q * option Q)) :=
  '(i_nadir, f_nadir) <- find_nadir f ;;
  match i_nadir with
  | Some i =>
      t_nadir <- getitem t (Z.of_nat i) ;;
      Ok (Some (t_nadir, f_nadir))
  | None => Ok None
  end.



(** ** The floor in binary64

    The enabled branch of the gain computation, [K = Sg/(f0*s)] and
    [f_lim = f0 - ΔP_load/K], on binary64 floats. *)
Definition floor_binary64 (ΔP_load s : float) : float :=
  (let Sg := 1 in
   let f0 := 50 in
   let K := Sg / (f0 * s) in
   f0 - ΔP_load / K)%float.

(** The binary64 numbers that the literals [0.1] and [49.95] denote. *)
Definition b64_0_1 : float := 0x1.999999999999ap-4%float.
Definition b64_49_95 : float := 0x1.8f9999999999ap+5%float.

(** ** Predicates of the statements *)

(** [i] is the index [np.argmin] designates: the first one that holds the
    global minimum of [f]. *)
Definition first_min (f : list Q) (i : nat) : Prop :=
  exists v, nth_error f i = Some v /\
    (forall j x, nth_error f j = Some x -> v <= x) /\
    (forall j x, (j < i)%nat -> nth_error f j = Some x -> v < x).

Definition non_increasing (f : list Q) : Prop :=
  forall i j x y, (i <= j)%nat ->
    nth_error f i = Some x -> nth_error f j = Some y -> y <= x.

Definition non_decreasing (f : list Q) : Prop :=
  forall i j x y, (i <= j)%nat ->
    nth_error f i = Some x -> nth_error f j = Some y -> x <= y.

(** What the scan knows after the samples [pre]: its candidate is in
    [pre], nothing in [pre] is below it, and everything before it is
    strictly above. *)
Definition scan_inv (pre : list Q) (i_best : nat) (best : Q) : Prop :=
  nth_error pre i_best = Some best /\
  (forall j x, nth_error pre j = Some x -> best <= x) /\
  (forall j x, (j < i_best)%nat -> nth_error pre j = Some x -> best < x).

(** The call [sim_freq_response] makes to the integrator, given the gain
    [K]. *)
Definition sim_call (ΔP_load : Q) (T_ΔP : pyobj) (H T_fcr : Q)
    (fcr_lag : bool) (K : Q) : ivp_call :=
  {| rhs := fder ΔP_load T_ΔP T_fcr fcr_lag (2 * H * Sg / Ω0 ^ 2) K;
     t_span := (t_ini, t_fin);
     y0 := x_ini fcr_lag;
     method := "BDF";
     max_step := (t_fin - t_ini) / 100;
     rtol := 1e-4 |}.

(** [t] is before the end of a load step of duration [T]. *)
Definition before (t : Q) (T : pyobj) : Prop :=
  match T with
  | Num d => t < d
  | Inf => True
  | Str _ => False
  end.

Definition is_duration (T : pyobj) : Prop :=
  match T with
  | Str _ => False
  | _ => True
  end.

(** ** Tactics *)

(** Concrete instances of [first_min] and of monotonicity: every index of
    a literal list is enumerated. *)
Ltac nth_cases j H :=
  lazymatch type of H with
  | nth_error [] _ = Some _ => destruct j; discriminate H
  | nth_error (_ :: _) _ = Some _ =>
      destruct j as [| j]; simpl in H;
      [inversion H; subst; clear H | nth_cases j H]
  end.

Ltac first_min_literal v :=
  exists v; split; [reflexivity | split];
  [ intros j x Hj; nth_cases j Hj; lra
  | intros j x Hlt Hj; nth_cases j Hj; first [lia | lra] ].

Ltac monotone_literal :=
  intros i j x y Hij Hi Hj; nth_cases i Hi; nth_cases j Hj;
  first [lia | lra].

(** ** Basic facts *)

Lemma Qlt_bool_iff (a b : Q) : Qlt_bool a b = true <-> a < b.
Proof.
  unfold Qlt_bool. rewrite negb_true_iff.
  destruct (Qle_bool b a) eqn:E.
  - apply Qle_bool_iff in E. split; [discriminate | intros L; lra].
  - split; [intros _ | reflexivity].
    apply Qnot_le_lt. intros L. apply Qle_bool_iff in L. congruence.
Qed.

Lemma Qlt_bool_false (a b : Q) : Qlt_bool a b = false <-> b <= a.
Proof.
  unfold Qlt_bool. rewrite negb_false_iff. apply Qle_bool_iff.
Qed.

Lemma getitem_nat {A : Type} (l : list A) (i : nat) (a : A) :
  nth_error l i = Some a -> getitem l (Z.of_nat i) = Ok a.
Proof.
  intros E. unfold getitem.
  destruct (Z.ltb_spec (Z.of_nat i) 0) as [L | _]; [lia |].
  destruct (Z.ltb_spec (Z.of_nat i) 0) as [L | _]; [lia |].
  now rewrite Nat2Z.id, E.
Qed.

Lemma getitem_last {A : Type} (l : list A) (a : A) :
  nth_error l (length l - 1) = Some a -> getitem l (-1) = Ok a.
Proof.
  intros E. unfold getitem.
  assert (length l <> 0)%nat as NE.
  { intros Z0. destruct l; [now rewrite nth_error_nil in E | discriminate]. }
  change (-1 <? 0)%Z with true. cbv iota.
  destruct (Z.ltb_spec (-1 + Z.of_nat (length l)) 0) as [L | _]; [lia |].
  replace (Z.to_nat (-1 + Z.of_nat (length l))) with (length l - 1)%nat by lia.
  now rewrite E.
Qed.

Lemma nth_error_last_some {A : Type} (l : list A) :
  l <> [] -> exists a, nth_error l (length l - 1) = Some a.
Proof.
  intros NE. destruct (nth_error l (length l - 1)) eqn:E; [eauto |].
  apply nth_error_None in E. destruct l; [congruence | simpl in E; lia].
Qed.

(** ** The scan of [argmin] *)

Lemma scan_inv_keep pre i_best best v :
  scan_inv pre i_best best -> best <= v ->
  scan_inv (pre ++ [v]) i_best best.
Proof.
  intros (Hat & Hmin & Hfirst) Hv.
  assert (i_best < length pre)%nat as Hlt
    by (apply nth_error_Some; congruence).
  repeat split.
  - now rewrite nth_error_app1.
  - intros j x Hj. destruct (Nat.lt_ge_cases j (length pre)) as [L | L].
    + rewrite nth_error_app1 in Hj by assumption. eauto.
    + rewrite nth_error_app2 in Hj by assumption.
      destruct (j - length pre)%nat as [| m]; simpl in Hj.
      * now inversion Hj; subst.
      * now rewrite nth_error_nil in Hj.
  - intros j x Hji Hj.
    rewrite nth_error_app1 in Hj by lia. eauto.
Qed.

Lemma scan_inv_replace pre i_best best v :
  scan_inv pre i_best best -> v < best ->
  scan_inv (pre ++ [v]) (length pre) v.
Proof.
  intros (Hat & Hmin & Hfirst) Hv.
  repeat split.
  - now rewrite nth_error_app2, Nat.sub_diag by lia.
  - intros j x Hj. destruct (Nat.lt_ge_cases j (length pre)) as [L | L].
    + rewrite nth_error_app1 in Hj by assumption.
      specialize (Hmin _ _ Hj). lra.
    + rewrite nth_error_app2 in Hj by assumption.
      destruct (j - length pre)%nat as [| m]; simpl in Hj.
      * inversion Hj; subst. lra.
      * now rewrite nth_error_nil in Hj.
  - intros j x Hji Hj.
    rewrite nth_error_app1 in Hj by assumption.
    specialize (Hmin _ _ Hj). lra.
Qed.

Lemma argmin_from_inv (l pre : list Q) (i_best : nat) (best : Q) :
  scan_inv pre i_best best ->
  exists v,
    scan_inv (pre ++ l) (argmin_from i_best best (length pre) l) v.
Proof.
  revert pre i_best best.
  induction l as [| v l IH]; intros pre i_best best Hinv; simpl.
  - rewrite app_nil_r. eauto.
  - replace (pre ++ v :: l) with ((pre ++ [v]) ++ l)
      by now rewrite <- app_assoc.
    replace (S (length pre)) with (length (pre ++ [v]))
      by (rewrite length_app; simpl; lia).
    destruct (Qlt_bool v best) eqn:E.
    + apply Qlt_bool_iff in E. apply IH.
      now apply scan_inv_replace with (i_best := i_best) (best := best).
    + apply Qlt_bool_false in E. apply IH. now apply scan_inv_keep.
Qed.

Lemma scan_inv_first_min (f : list Q) (i : nat) (v : Q) :
  scan_inv f i v -> first_min f i.
Proof. intros Hinv. exists v. exact Hinv. Qed.

(** [np.argmin] is defined on every non-empty sequence and designates the
    first index of the global minimum. *)
Lemma argmin_first_min (f : list Q) :
  f <> [] -> exists i, argmin f = Ok i /\ first_min f i.
Proof.
  destruct f as [| v l]; [congruence | intros _].
  eexists. split; [reflexivity |].
  destruct (argmin_from_inv l [v] 0 v) as (w & Hw).
  - repeat split.
    + intros [| j] x Hj; simpl in Hj.
      * inversion Hj; subst. lra.
      * now rewrite nth_error_nil in Hj.
    + intros j x Hj. lia.
  - eapply scan_inv_first_min. exact Hw.
Qed.

Lemma first_min_unique (f : list Q) (i j : nat) :
  first_min f i -> first_min f j -> i = j.
Proof.
  intros (v & Hv & Hvmin & Hvfirst) (w & Hw & Hwmin & Hwfirst).
  destruct (Nat.lt_trichotomy i j) as [L | [E | L]]; [| exact E |].
  - specialize (Hwfirst _ _ L Hv). specialize (Hvmin _ _ Hw). lra.
  - specialize (Hvfirst _ _ L Hw). specialize (Hwmin _ _ Hv). lra.
Qed.

Lemma first_min_bound (f : list Q) (i : nat) :
  first_min f i -> (i < length f)%nat.
Proof.
  intros (v & Hv & _). apply nth_error_Some. congruence.
Qed.

(** [find_nadir] in closed form, from the outcome of [argmin] and the two
    samples it reads. *)
Lemma find_nadir_eq (f : list Q) (i : nat) (v e : Q) :
  argmin f = Ok i ->
  nth_error f i = Some v ->
  nth_error f (length f - 1) = Some e ->
  find_nadir f =
    if ((i <? length f - 1)%nat && (0 <? i)%nat
        && Qle_bool v (e - 0.001))%bool
    then Ok (Some i, Some v) else Ok (None, None).
Proof.
  intros Hi Hv He. unfold find_nadir. rewrite Hi. simpl.
  assert (length f <> 0)%nat as NE.
  { destruct f; [discriminate | discriminate]. }
  destruct (Z.ltb_spec (Z.of_nat i) (Z.of_nat (length f) - 1)) as [L1 | L1];
    destruct (Nat.ltb_spec i (length f - 1)) as [L1' | L1']; try lia;
    simpl; [| reflexivity].
  destruct (Z.ltb_spec 0 (Z.of_nat i)) as [L2 | L2];
    destruct (Nat.ltb_spec 0 i) as [L2' | L2']; try lia;
    simpl; [| reflexivity].
  rewrite (getitem_nat _ _ _ Hv). simpl.
  rewrite (getitem_last _ _ He). simpl.
  reflexivity.
Qed.

(** Every non-empty sequence has the samples [find_nadir] reads. *)
Lemma find_nadir_reads (f : list Q) :
  f <> [] ->
  exists i v e,
    argmin f = Ok i /\ first_min f i /\
    nth_error f i = Some v /\ nth_error f (length f - 1) = Some e.
Proof.
  intros NE.
  destruct (argmin_first_min f NE) as (i & Hi & Hmin).
  destruct (nth_error_last_some f NE) as (e & He).
  pose proof Hmin as (v & Hv & _).
  exists i, v, e. auto.
Qed.

Lemma first_min_argmin (f : list Q) (i : nat) :
  first_min f i -> argmin f = Ok i.
Proof.
  intros Hmin.
  assert (f <> []) as NE.
  { destruct Hmin as (v & Hv & _). intros ->.
    now rewrite nth_error_nil in Hv. }
  destruct (argmin_first_min f NE) as (j & Hj & Hjmin).
  now rewrite (first_min_unique f i j Hmin Hjmin).
Qed.

(** ** Properties of [find_nadir] *)

(** C2, as the code has it: with [i] the index of the global minimum of the
    frequency sequence (first occurrence), [v] its value and [e] the final
    sample, [find_nadir] reports the nadir [(i, v)] when [i] is not the
    first sample, is not the last sample and [v] is at least 0.001 below
    [e] ([v <= e - 0.001]); in every other case it reports no nadir. *)
Theorem find_nadir_reports_iff (f : list Q) (i : nat) (v e : Q) :
  first_min f i ->
  nth_error f i = Some v ->
  nth_error f (length f - 1) = Some e ->
  (i <> 0%nat /\ i <> (length f - 1)%nat /\ v <= e - 0.001 ->
   find_nadir f = Ok (Some i, Some v)) /\
  (~ (i <> 0%nat /\ i <> (length f - 1)%nat /\ v <= e - 0.001) ->
   find_nadir f = Ok (None, None)).
Proof.
  intros Hmin Hv He.
  pose proof (first_min_bound f i Hmin) as Hb.
  rewrite (find_nadir_eq f i v e (first_min_argmin f i Hmin) Hv He).
  destruct (Nat.ltb_spec i (length f - 1)) as [L1 | L1];
    destruct (Nat.ltb_spec 0 i) as [L2 | L2];
    destruct (Qle_bool v (e - 0.001)) eqn:E; simpl;
    split; intros HH; try reflexivity;
    try (exfalso; destruct HH as (N0 & N1 & Hle);
         first [lia | apply Qle_bool_iff in Hle; congruence]).
  exfalso. apply HH. repeat split; try lia. now apply Qle_bool_iff.
Qed.

Lemma find_nadir_reports_iff_witness :
  find_nadir [50; 49; 50] = Ok (Some 1%nat, Some 49) /\
  find_nadir [50; 49.9995; 50] = Ok (None, None).
Proof.
  split.
  - apply (find_nadir_reports_iff [50; 49; 50] 1 49 50).
    + first_min_literal 49.
    + reflexivity.
    + reflexivity.
    + simpl. repeat split; [lia | lia | lra].
  - apply (find_nadir_reports_iff [50; 49.9995; 50] 1 49.9995 50).
    + first_min_literal 49.9995.
    + reflexivity.
    + reflexivity.
    + intros (_ & _ & Hle). lra.
Defined.

(** C2, as it is worded, fails: on the sequence 50, 49, 50 a nadir is
    reported at the interior minimum 49, which is 1 below the final
    sample, so not "at most 0.001 below" it. *)
Lemma find_nadir_deep_dip_reported :
  find_nadir [50; 49; 50] = Ok (Some 1%nat, Some 49) /\
  nth_error [50; 49; 50] (length [50; 49; 50] - 1) = Some 50 /\
  ~ (50 - 49 <= 0.001).
Proof.
  split; [reflexivity | split; [reflexivity | lra]].
Qed.

(** C3: when the global minimum of the frequency sequence lies at an index
    [i] strictly between the first and the last sample and the final sample
    is at least 0.001 above it, [find_nadir] returns [i] and the minimum;
    on a (non-empty) monotonically non-increasing or non-decreasing
    sequence it returns no nadir. *)
Theorem find_nadir_dip_or_monotone (f : list Q) :
  (forall i v e,
     first_min f i -> (0 < i < length f - 1)%nat ->
     nth_error f i = Some v ->
     nth_error f (length f - 1) = Some e ->
     v + 0.001 <= e ->
     find_nadir f = Ok (Some i, Some v)) /\
  (f <> [] -> non_increasing f \/ non_decreasing f ->
   find_nadir f = Ok (None, None)).
Proof.
  split.
  - intros i v e Hmin Hi Hv He Hrec.
    rewrite (find_nadir_eq f i v e (first_min_argmin f i Hmin) Hv He).
    destruct (Nat.ltb_spec i (length f - 1)) as [_ | L]; [| lia].
    destruct (Nat.ltb_spec 0 i) as [_ | L]; [| lia].
    assert (Qle_bool v (e - 0.001) = true) as ->
      by (apply Qle_bool_iff; lra).
    reflexivity.
  - intros NE Hmono.
    destruct (find_nadir_reads f NE) as (i & v & e & Hi & Hmin & Hv & He).
    pose proof (first_min_bound f i Hmin) as Hb.
    rewrite (find_nadir_eq f i v e Hi Hv He).
    destruct Hmono as [Hdown | Hup].
    + assert (e <= v) as Hev by (apply (Hdown i (length f - 1)%nat); auto; lia).
      assert (Qle_bool v (e - 0.001) = false) as ->.
      { destruct (Qle_bool v (e - 0.001)) eqn:E; [| reflexivity].
        apply Qle_bool_iff in E. lra. }
      now rewrite andb_false_r.
    + destruct i as [| i]; [now rewrite andb_false_r |].
      exfalso.
      destruct f as [| x0 l]; [congruence |].
      destruct Hmin as (w & Hw & _ & Hfirst).
      assert (w < x0) as Hlt by (apply (Hfirst 0%nat); [lia | reflexivity]).
      assert (x0 <= w) as Hle by (apply (Hup 0%nat (S i)); auto; lia).
      lra.
Qed.

Lemma find_nadir_dip_or_monotone_witness :
  find_nadir [50; 49.2; 49.6] = Ok (Some 1%nat, Some 49.2) /\
  find_nadir [50; 49.5; 49.5] = Ok (None, None) /\
  find_nadir [49.5; 49.5; 50] = Ok (None, None).
Proof.
  split; [| split].
  - apply (proj1 (find_nadir_dip_or_monotone [50; 49.2; 49.6]) 1%nat 49.2 49.6).
    + first_min_literal 49.2.
    + simpl. lia.
    + reflexivity.
    + reflexivity.
    + lra.
  - apply (proj2 (find_nadir_dip_or_monotone [50; 49.5; 49.5])).
    + discriminate.
    + left. monotone_literal.
  - apply (proj2 (find_nadir_dip_or_monotone [49.5; 49.5; 50])).
    + discriminate.
    + right. monotone_literal.
Defined.

(** C10: on a non-empty sequence [find_nadir] returns either [(None, None)]
    or a pair [(i, v)] with [0 < i < len(f) - 1], [v = f[i]], [v] the global
    minimum of [f] and [i] the first index that holds it, and
    [v <= f[len(f)-1] - 0.001]; on a sequence of length 1 or 2 it returns
    [(None, None)]. *)
Theorem find_nadir_result_shape (f : list Q) :
  f <> [] ->
  (find_nadir f = Ok (None, None) \/
   exists i v e,
     find_nadir f = Ok (Some i, Some v) /\
     (0 < i < length f - 1)%nat /\
     nth_error f i = Some v /\
     (forall j x, nth_error f j = Some x -> v <= x) /\
     (forall j x, (j < i)%nat -> nth_error f j = Some x -> v < x) /\
     nth_error f (length f - 1) = Some e /\
     v <= e - 0.001) /\
  ((length f <= 2)%nat -> find_nadir f = Ok (None, None)).
Proof.
  intros NE.
  destruct (find_nadir_reads f NE) as (i & v & e & Hi & Hmin & Hv & He).
  pose proof (first_min_bound f i Hmin) as Hb.
  rewrite (find_nadir_eq f i v e Hi Hv He).
  destruct (Nat.ltb_spec i (length f - 1)) as [L1 | L1]; simpl.
  - destruct (Nat.ltb_spec 0 i) as [L2 | L2]; simpl.
    + split; [| intros Hlen; lia].
      destruct (Qle_bool v (e - 0.001)) eqn:E; [right | now left].
      apply Qle_bool_iff in E.
      destruct Hmin as (w & Hw & Hall & Hfirst).
      assert (w = v) as -> by congruence.
      exists i, v, e. repeat split; auto; lia.
    + split; [now left | reflexivity].
  - split; [now left | reflexivity].
Qed.

Lemma find_nadir_result_shape_witness :
  (find_nadir [50; 49.2; 49.6] = Ok (None, None) \/
   exists i v e,
     find_nadir [50; 49.2; 49.6] = Ok (Some i, Some v) /\
     (0 < i < 2)%nat /\
     nth_error [50; 49.2; 49.6] i = Some v /\
     (forall j x, nth_error [50; 49.2; 49.6] j = Some x -> v <= x) /\
     (forall j x, (j < i)%nat ->
        nth_error [50; 49.2; 49.6] j = Some x -> v < x) /\
     nth_error [50; 49.2; 49.6] 2 = Some e /\
     v <= e - 0.001) /\
  find_nadir [50; 49.2] = Ok (None, None).
Proof.
  split.
  - apply (find_nadir_result_shape [50; 49.2; 49.6]). discriminate.
  - apply (find_nadir_result_shape [50; 49.2]).
    + discriminate.
    + simpl. lia.
Defined.

(** ** Facts about the simulation function *)

Lemma truediv_ok (a b : Q) : ~ b == 0 -> truediv a b = Ok (a / b).
Proof.
  intros NZ. unfold truediv.
  destruct (Qeq_bool b 0) eqn:E; [| reflexivity].
  apply Qeq_bool_iff in E. contradiction.
Qed.

Lemma truediv_ok_inv (a b q : Q) : truediv a b = Ok q -> q = a / b.
Proof.
  unfold truediv. destruct (Qeq_bool b 0); [discriminate |].
  now intros [= <-].
Qed.

Lemma gain_positive (s : Q) : 0 < s -> 0 < Sg / (f0 * s).
Proof.
  intros Hs. unfold Sg, f0, Qdiv.
  assert (0 < / (50 * s)) as Hinv by (apply Qinv_lt_0_compat; lra).
  lra.
Qed.

Lemma droop_gain_enabled (ΔP_load s : Q) :
  0 < s ->
  droop_gain true ΔP_load s =
    Ok (Sg / (f0 * s), f0 - ΔP_load / (Sg / (f0 * s))).
Proof.
  intros Hs. unfold droop_gain.
  rewrite truediv_ok by (unfold f0; lra). simpl.
  pose proof (gain_positive s Hs) as HK.
  rewrite truediv_ok by lra. reflexivity.
Qed.

Lemma droop_gain_inv (fcr : bool) (ΔP_load s K f_lim : Q) :
  droop_gain fcr ΔP_load s = Ok (K, f_lim) ->
  if fcr then K = Sg / (f0 * s) /\ f_lim = f0 - ΔP_load / K
  else K = 0 /\ f_lim = 0.
Proof.
  unfold droop_gain. destruct fcr.
  - destruct (truediv Sg (f0 * s)) as [K' |] eqn:E1; [| discriminate].
    simpl. destruct (truediv ΔP_load K') as [q |] eqn:E2; [| discriminate].
    simpl. intros [= <- <-].
    apply truediv_ok_inv in E1, E2. now subst.
  - now intros [= <- <-].
Qed.

(** The shape of [sim_freq_response] once the gain is known: one call to
    the integrator, then the extraction of the output. *)
Lemma sim_freq_response_call (ΔP_load : Q) (T_ΔP : pyobj) (H s T_fcr : Q)
    (fcr fcr_lag : bool) (K f_lim : Q) :
  droop_gain fcr ΔP_load s = Ok (K, f_lim) ->
  sim_freq_response ΔP_load T_ΔP H s T_fcr fcr fcr_lag =
    Solve_ivp (sim_call ΔP_load T_ΔP H T_fcr fcr_lag K)
      (fun sol => Return (extract_output fcr_lag K f_lim sol)).
Proof.
  intros HK. unfold sim_freq_response, lift. rewrite HK. reflexivity.
Qed.

Lemma sim_freq_response_raise (ΔP_load : Q) (T_ΔP : pyobj) (H s T_fcr : Q)
    (fcr fcr_lag : bool) (e : exn) :
  droop_gain fcr ΔP_load s = Raise e ->
  sim_freq_response ΔP_load T_ΔP H s T_fcr fcr fcr_lag = Return (Raise e).
Proof.
  intros HK. unfold sim_freq_response, lift. rewrite HK. reflexivity.
Qed.

(** A run of [sim_freq_response] that returns went through the gain, one
    solution of the integrator and the extraction. *)
Lemma run_sim_freq_response_inv integrate plot (ΔP_load : Q) (T_ΔP : pyobj)
    (H s T_fcr : Q) (fcr fcr_lag : bool) (out : list Q * list Q * list Q * Q) :
  run integrate plot
    (sim_freq_response ΔP_load T_ΔP H s T_fcr fcr fcr_lag) = Ok out ->
  exists K f_lim sol,
    droop_gain fcr ΔP_load s = Ok (K, f_lim) /\
    integrate (sim_call ΔP_load T_ΔP H T_fcr fcr_lag K) = Ok sol /\
    extract_output fcr_lag K f_lim sol = Ok out.
Proof.
  intros Hrun.
  destruct (droop_gain fcr ΔP_load s) as [[K f_lim] | e] eqn:HK.
  - rewrite (sim_freq_response_call _ _ _ _ _ _ _ _ _ HK) in Hrun.
    simpl in Hrun.
    destruct (integrate (sim_call ΔP_load T_ΔP H T_fcr fcr_lag K))
      as [sol |] eqn:Hsol; [| discriminate].
    exists K, f_lim, sol. auto.
  - rewrite (sim_freq_response_raise _ _ _ _ _ _ _ _ HK) in Hrun.
    discriminate.
Qed.

(** A run of [sim_freq_response] returns as soon as the gain is defined,
    the integrator returns and the solution has the rows that are read. *)
Lemma run_sim_freq_response_returns integrate plot (ΔP_load : Q)
    (T_ΔP : pyobj) (H s T_fcr : Q) (fcr fcr_lag : bool) (K f_lim : Q)
    (sol : OdeResult) (out : list Q * list Q * list Q * Q) :
  droop_gain fcr ΔP_load s = Ok (K, f_lim) ->
  integrate (sim_call ΔP_load T_ΔP H T_fcr fcr_lag K) = Ok sol ->
  extract_output fcr_lag K f_lim sol = Ok out ->
  run integrate plot
    (sim_freq_response ΔP_load T_ΔP H s T_fcr fcr fcr_lag) = Ok out.
Proof.
  intros HK Hsol Hx.
  rewrite (sim_freq_response_call _ _ _ _ _ _ _ _ _ HK).
  simpl. rewrite Hsol. simpl. exact Hx.
Qed.

Lemma extract_output_no_lag (K f_lim : Q) (sol : OdeResult) (f : list Q)
    (rows : list (list Q)) :
  sol_y sol = f :: rows ->
  extract_output false K f_lim sol =
    Ok (sol_t sol, f, map (fun fi => - K * (fi - f0)) f, f_lim).
Proof.
  intros Hy. unfold extract_output, getitem. now rewrite Hy.
Qed.

Lemma extract_output_lag (K f_lim : Q) (sol : OdeResult) (f P_fcr : list Q)
    (rows : list (list Q)) :
  sol_y sol = f :: P_fcr :: rows ->
  extract_output true K f_lim sol = Ok (sol_t sol, f, P_fcr, f_lim).
Proof.
  intros Hy. unfold extract_output, getitem. now rewrite Hy.
Qed.

Lemma extract_output_inv (fcr_lag : bool) (K f_lim : Q) (sol : OdeResult)
    (t f P_fcr : list Q) (fl : Q) :
  extract_output fcr_lag K f_lim sol = Ok (t, f, P_fcr, fl) ->
  t = sol_t sol /\ fl = f_lim /\
  nth_error (sol_y sol) 0 = Some f /\
  if fcr_lag then nth_error (sol_y sol) 1 = Some P_fcr
  else P_fcr = map (fun fi => - K * (fi - f0)) f.
Proof.
  unfold extract_output, getitem.
  destruct (sol_y sol) as [| r0 [| r1 rows]]; destruct fcr_lag; simpl;
    try discriminate; intros [= <- <- <- <-]; auto.
Qed.

(** The load term, for a duration [T_ΔP] (a number or [np.inf]). *)
Lemma P_load_at_in_step (ΔP_load : Q) (T_ΔP : pyobj) (t : Q) :
  0 <= t -> before t T_ΔP -> P_load_at ΔP_load T_ΔP t = Ok ΔP_load.
Proof.
  intros H0 Hb. unfold P_load_at.
  assert (Qle_bool 0 t = true) as -> by now apply Qle_bool_iff.
  destruct T_ΔP as [d | | str]; simpl in *.
  - assert (Qlt_bool t d = true) as -> by now apply Qlt_bool_iff.
    reflexivity.
  - reflexivity.
  - contradiction.
Qed.

Lemma P_load_at_after (ΔP_load : Q) (T_ΔP : pyobj) (t : Q) :
  is_duration T_ΔP -> ~ before t T_ΔP -> P_load_at ΔP_load T_ΔP t = Ok 0.
Proof.
  intros Hd Hb. unfold P_load_at.
  destruct T_ΔP as [d | | str]; simpl in *.
  - assert (Qlt_bool t d = false) as ->.
    { apply Qlt_bool_false. apply Qnot_lt_le. exact Hb. }
    now destruct (Qle_bool 0 t).
  - exfalso. now apply Hb.
  - contradiction.
Qed.

(** Before [t = 0] the second comparison is not evaluated: the load term
    is 0 whatever [T_ΔP] is. *)
Lemma P_load_at_negative (ΔP_load : Q) (T_ΔP : pyobj) (t : Q) :
  t < 0 -> P_load_at ΔP_load T_ΔP t = Ok 0.
Proof.
  intros Hneg. unfold P_load_at.
  assert (Qle_bool 0 t = false) as ->.
  { destruct (Qle_bool 0 t) eqn:E; [| reflexivity].
    apply Qle_bool_iff in E. lra. }
  reflexivity.
Qed.

(** [fder] on a state of the right length, from the load term. *)
Lemma fder_from_load (ΔP_load : Q) (T_ΔP : pyobj) (T_fcr : Q)
    (fcr_lag : bool) (J K t f : Q) (rest : list Q) (P_load : Q) :
  (fcr_lag = true -> rest <> []) ->
  P_load_at ΔP_load T_ΔP t = Ok P_load ->
  let P_fcr := if fcr_lag then hd 0 rest else - K * (f - f0) in
  let ΔP := - P_load + P_fcr in
  exists tail,
    fder ΔP_load T_ΔP T_fcr fcr_lag J K t (f :: rest) =
      Ok (np_div (np_div (Some ΔP) (J * (2 * pi * f))) (2 * pi) :: tail).
Proof.
  intros Hlen HP. unfold fder, swing, getitem. simpl.
  destruct fcr_lag.
  - destruct rest as [| P rest]; [now destruct (Hlen eq_refl) |].
    simpl. rewrite HP. simpl. eauto.
  - rewrite HP. simpl. eauto.
Qed.

(** With the gain at zero, the derivative of the filtered power is zero
    whenever the filtered power is zero. *)
Lemma fder_lag_power_derivative (ΔP_load : Q) (T_ΔP : pyobj) (T_fcr J : Q)
    (t : Q) (x : list Q) (xk : Q) (d : list float64) :
  ~ T_fcr == 0 ->
  nth_error x 1 = Some xk -> xk == 0 ->
  fder ΔP_load T_ΔP T_fcr true J 0 t x = Ok d ->
  exists z, nth_error d 1 = Some (Some z) /\ z == 0.
Proof.
  intros HT Hx Hz.
  destruct x as [| f [| P rest]]; try discriminate.
  simpl in Hx. injection Hx as ->.
  unfold fder, getitem. simpl.
  destruct (swing ΔP_load T_ΔP J t f xk) as [f_dot |]; [| discriminate].
  simpl. intros [= <-]. simpl.
  destruct (Qeq_bool T_fcr 0) eqn:E.
  - apply Qeq_bool_iff in E. contradiction.
  - eexists. split; [reflexivity |].
    rewrite Hz. field. exact HT.
Qed.

(** For every parameter set with a positive droop when the regulation is
    on, the gain and the floor exist and [sim_freq_response] is the call
    to the integrator followed by the extraction. *)
Lemma sim_freq_response_shape (ΔP_load : Q) (T_ΔP : pyobj)
    (H s T_fcr : Q) (fcr fcr_lag : bool) :
  (fcr = true -> 0 < s) ->
  exists K f_lim,
    droop_gain fcr ΔP_load s = Ok (K, f_lim) /\
    (if fcr then K = Sg / (f0 * s) /\ f_lim = f0 - ΔP_load / K
     else K = 0 /\ f_lim = 0) /\
    sim_freq_response ΔP_load T_ΔP H s T_fcr fcr fcr_lag =
      Solve_ivp (sim_call ΔP_load T_ΔP H T_fcr fcr_lag K)
        (fun sol => Return (extract_output fcr_lag K f_lim sol)).
Proof.
  intros Hs.
  assert (exists K f_lim, droop_gain fcr ΔP_load s = Ok (K, f_lim))
    as (K & f_lim & HK).
  { destruct fcr.
    - rewrite droop_gain_enabled by now apply Hs. eauto.
    - simpl. eauto. }
  exists K, f_lim. split; [exact HK | split].
  - now apply droop_gain_inv.
  - now apply sim_freq_response_call.
Qed.

Lemma extract_output_floor (fcr_lag : bool) (K f_lim : Q) (sol : OdeResult)
    (out : list Q * list Q * list Q * Q) :
  extract_output fcr_lag K f_lim sol = Ok out -> snd out = f_lim.
Proof.
  destruct out as [[[t f] P_fcr] fl]. intros Hx.
  now apply extract_output_inv in Hx as (_ & -> & _).
Qed.

(** ** Properties of [sim_freq_response] *)

(** C1: for every parameter set (the droop [s] is positive when the
    regulation is on), [sim_freq_response] computes the droop gain [K] and
    the floor [f_lim] as: [K = 0] and [f_lim = 0] when [fcr] is off,
    [K = Sg / (f0 * s)] with [Sg = 1] and [f0 = 50], and
    [f_lim = f0 - ΔP_load / K] when it is on.  This [K] is the gain of the
    right-hand side handed to the integrator and of the extraction, and
    this [f_lim] is the floor returned. *)
Theorem sim_freq_response_gain_and_floor (ΔP_load : Q) (T_ΔP : pyobj)
    (H s T_fcr : Q) (fcr fcr_lag : bool) :
  (fcr = true -> 0 < s) ->
  exists K f_lim,
    (fcr = false -> K = 0 /\ f_lim = 0) /\
    (fcr = true -> K = Sg / (f0 * s) /\ f_lim = f0 - ΔP_load / K) /\
    Sg = 1 /\ f0 = 50 /\
    sim_freq_response ΔP_load T_ΔP H s T_fcr fcr fcr_lag =
      Solve_ivp (sim_call ΔP_load T_ΔP H T_fcr fcr_lag K)
        (fun sol => Return (extract_output fcr_lag K f_lim sol)) /\
    (forall sol out,
       extract_output fcr_lag K f_lim sol = Ok out -> snd out = f_lim).
Proof.
  intros Hs.
  destruct (sim_freq_response_shape ΔP_load T_ΔP H s T_fcr fcr fcr_lag Hs)
    as (K & f_lim & _ & HK & Hsim).
  exists K, f_lim.
  split; [| split; [| split; [| split; [| split]]]].
  - intros ->. exact HK.
  - intros ->. exact HK.
  - reflexivity.
  - reflexivity.
  - exact Hsim.
  - intros sol out. apply extract_output_floor.
Qed.

Lemma sim_freq_response_gain_and_floor_witness :
  exists K f_lim,
    (true = false -> K = 0 /\ f_lim = 0) /\
    (true = true -> K = Sg / (f0 * 0.10) /\ f_lim = f0 - 0.1 / K) /\
    Sg = 1 /\ f0 = 50 /\
    sim_freq_response 0.1 (Num 10) 1 0.10 1 true false =
      Solve_ivp (sim_call 0.1 (Num 10) 1 1 false K)
        (fun sol => Return (extract_output false K f_lim sol)) /\
    (forall sol out,
       extract_output false K f_lim sol = Ok out -> snd out = f_lim).
Proof.
  apply (sim_freq_response_gain_and_floor 0.1 (Num 10) 1 0.10 1 true false).
  intros _. lra.
Defined.

(** C9: for every parameter set, the simulator builds the initial state as
    frequency 50 Hz, followed by a regulation power of 0 exactly when
    [fcr_lag] is on (so of length 2, and of length 1 otherwise), and calls
    the integrator once, over the window from [t_ini = -1] to [t_fin = 10],
    with the method BDF, the maximum step [(t_fin - t_ini) / 100] and the
    relative tolerance 1e-4. *)
Theorem sim_freq_response_integrator_call (ΔP_load : Q) (T_ΔP : pyobj)
    (H s T_fcr : Q) (fcr fcr_lag : bool) :
  (fcr = true -> 0 < s) ->
  exists fn x0 k,
    sim_freq_response ΔP_load T_ΔP H s T_fcr fcr fcr_lag =
      Solve_ivp {| rhs := fn; t_span := (t_ini, t_fin); y0 := x0;
                   method := "BDF"; max_step := (t_fin - t_ini) / 100;
                   rtol := 1e-4 |} k /\
    x0 = (if fcr_lag then [50; 0] else [50]) /\
    length x0 = (if fcr_lag then 2%nat else 1%nat) /\
    t_ini = -1 /\ t_fin = 10 /\
    (t_fin - t_ini) / 100 == 0.11 /\
    (forall sol, exists r, k sol = Return r).
Proof.
  intros Hs.
  destruct (sim_freq_response_shape ΔP_load T_ΔP H s T_fcr fcr fcr_lag Hs)
    as (K & f_lim & _ & _ & Hsim).
  exists (fder ΔP_load T_ΔP T_fcr fcr_lag (2 * H * Sg / Ω0 ^ 2) K).
  exists (x_ini fcr_lag).
  exists (fun sol => Return (extract_output fcr_lag K f_lim sol)).
  split; [exact Hsim |].
  split; [now destruct fcr_lag |].
  split; [now destruct fcr_lag |].
  split; [reflexivity |].
  split; [reflexivity |].
  split; [reflexivity |].
  intros sol. eauto.
Qed.

Lemma sim_freq_response_integrator_call_witness :
  exists fn x0 k,
    sim_freq_response 0.1 (Num 10) 1 0.10 1 true true =
      Solve_ivp {| rhs := fn; t_span := (t_ini, t_fin); y0 := x0;
                   method := "BDF"; max_step := (t_fin - t_ini) / 100;
                   rtol := 1e-4 |} k /\
    x0 = [50; 0] /\
    length x0 = 2%nat /\
    t_ini = -1 /\ t_fin = 10 /\
    (t_fin - t_ini) / 100 == 0.11 /\
    (forall sol, exists r, k sol = Return r).
Proof.
  apply (sim_freq_response_integrator_call 0.1 (Num 10) 1 0.10 1 true true).
  intros _. lra.
Defined.

(** C7: with the regulation on and no lag, the returned regulation power
    satisfies [P_fcr[i] = -K * (f[i] - 50)] at every sample index [i], for
    the gain [K = Sg / (f0 * s)]: the droop law is applied again to the
    frequency trajectory the integrator returned.  The run returns whenever
    the integrator returns a solution with a frequency row. *)
Theorem regulation_power_is_droop_law
    (integrate : ivp_call -> result OdeResult)
    (plot : plot_call -> result unit)
    (ΔP_load : Q) (T_ΔP : pyobj) (H s T_fcr : Q) :
  0 < s ->
  let K := Sg / (f0 * s) in
  (forall sol f rows,
     integrate (sim_call ΔP_load T_ΔP H T_fcr false K) = Ok sol ->
     sol_y sol = f :: rows ->
     run integrate plot
       (sim_freq_response ΔP_load T_ΔP H s T_fcr true false)
     = Ok (sol_t sol, f, map (fun fi => - K * (fi - 50)) f,
           f0 - ΔP_load / K)) /\
  (forall t f P_fcr f_lim,
     run integrate plot
       (sim_freq_response ΔP_load T_ΔP H s T_fcr true false)
     = Ok (t, f, P_fcr, f_lim) ->
     length P_fcr = length f /\
     forall i fi, nth_error f i = Some fi ->
                  nth_error P_fcr i = Some (- K * (fi - 50))).
Proof.
  intros Hs K. split.
  - intros sol f rows Hsol Hy.
    apply (run_sim_freq_response_returns integrate plot ΔP_load T_ΔP H s
             T_fcr true false K (f0 - ΔP_load / K) sol).
    + now apply droop_gain_enabled.
    + exact Hsol.
    + now apply extract_output_no_lag with (rows := rows).
  - intros t f P_fcr f_lim Hrun.
    apply run_sim_freq_response_inv in Hrun
      as (K' & fl & sol & HK & _ & Hx).
    apply droop_gain_inv in HK as (-> & _).
    apply extract_output_inv in Hx as (_ & _ & _ & ->).
    split.
    + apply length_map.
    + intros i fi Hi. rewrite nth_error_map, Hi. reflexivity.
Qed.

Lemma regulation_power_is_droop_law_witness :
  exists t f P_fcr f_lim,
    run (euler 12) no_plot
      (sim_freq_response 0.1 (Num t_fin) 1 0.10 1 true false)
      = Ok (t, f, P_fcr, f_lim) /\
    length P_fcr = length f /\
    forall i fi, nth_error f i = Some fi ->
                 nth_error P_fcr i
                 = Some (- (Sg / (f0 * 0.10)) * (fi - 50)).
Proof.
  assert (0 < 0.10) as Hs by reflexivity.
  pose proof (regulation_power_is_droop_law (euler 12) no_plot
                0.1 (Num t_fin) 1 0.10 1 Hs) as (Hreturns & Hlaw).
  destruct (euler 12 (sim_call 0.1 (Num t_fin) 1 1 false (Sg / (f0 * 0.10))))
    as [sol |] eqn:Hsol; [| vm_compute in Hsol; discriminate Hsol].
  destruct (sol_y sol) as [| f rows] eqn:Hy.
  { vm_compute in Hsol. injection Hsol as <-. discriminate Hy. }
  specialize (Hreturns sol f rows eq_refl Hy).
  do 4 eexists. split; [exact Hreturns |].
  exact (Hlaw _ _ _ _ Hreturns).
Defined.

(** ** Properties of [fder] *)

(** C6: for every time [t] and state [x] passed to [fder] (a state of the
    right length, and a duration [T_ΔP]), the load term of the power
    balance is [ΔP_load] when [0 <= t < T_ΔP] and 0 for every other [t],
    in particular for every [t < 0]; the first component of the derivative
    is the swing equation on [-P_load + P_fcr]. *)
Theorem fder_load_term (ΔP_load : Q) (T_ΔP : pyobj) (T_fcr : Q)
    (fcr_lag : bool) (J K t f : Q) (rest : list Q) :
  is_duration T_ΔP ->
  (fcr_lag = true -> rest <> []) ->
  exists P_load tail,
    (0 <= t /\ before t T_ΔP -> P_load = ΔP_load) /\
    (~ (0 <= t /\ before t T_ΔP) -> P_load = 0) /\
    (t < 0 -> P_load = 0) /\
    P_load_at ΔP_load T_ΔP t = Ok P_load /\
    let P_fcr := if fcr_lag then hd 0 rest else - K * (f - f0) in
    let ΔP := - P_load + P_fcr in
    fder ΔP_load T_ΔP T_fcr fcr_lag J K t (f :: rest) =
      Ok (np_div (np_div (Some ΔP) (J * (2 * pi * f))) (2 * pi) :: tail).
Proof.
  intros Hd Hlen.
  destruct (Qlt_le_dec t 0) as [Hneg | Hpos].
  - destruct (fder_from_load ΔP_load T_ΔP T_fcr fcr_lag J K t f rest 0
                Hlen (P_load_at_negative ΔP_load T_ΔP t Hneg)) as (tl & Hf).
    exists 0, tl. repeat split; auto.
    + intros (H0 & _). lra.
    + now apply P_load_at_negative.
  - assert (before t T_ΔP \/ ~ before t T_ΔP) as [Hb | Hb].
    { destruct T_ΔP as [d | | str]; simpl; auto.
      destruct (Qlt_le_dec t d); [now left | right; lra]. }
    + destruct (fder_from_load ΔP_load T_ΔP T_fcr fcr_lag J K t f rest
                  ΔP_load Hlen (P_load_at_in_step ΔP_load T_ΔP t Hpos Hb))
        as (tl & Hf).
      exists ΔP_load, tl. repeat split; auto.
      * intros Hn. exfalso. now apply Hn.
      * intros Hneg. lra.
      * now apply P_load_at_in_step.
    + destruct (fder_from_load ΔP_load T_ΔP T_fcr fcr_lag J K t f rest 0
                  Hlen (P_load_at_after ΔP_load T_ΔP t Hd Hb)) as (tl & Hf).
      exists 0, tl. repeat split; auto.
      * intros (_ & Hb'). contradiction.
      * now apply P_load_at_after.
Qed.

Lemma fder_load_term_witness :
  exists P_load tail,
    (0 <= 2 /\ before 2 (Num 4) -> P_load = 0.1) /\
    (~ (0 <= 2 /\ before 2 (Num 4)) -> P_load = 0) /\
    (2 < 0 -> P_load = 0) /\
    P_load_at 0.1 (Num 4) 2 = Ok P_load /\
    let P_fcr := hd 0 [0.02] in
    let ΔP := - P_load + P_fcr in
    fder 0.1 (Num 4) 1 true (2 * 1 * Sg / Ω0 ^ 2) 0.2 2 [49.9; 0.02] =
      Ok (np_div (np_div (Some ΔP) (2 * 1 * Sg / Ω0 ^ 2 * (2 * pi * 49.9)))
            (2 * pi) :: tail).
Proof.
  apply (fder_load_term 0.1 (Num 4) 1 true (2 * 1 * Sg / Ω0 ^ 2) 0.2 2 49.9
           [0.02]).
  - exact I.
  - discriminate.
Defined.

(** ** Scenario B *)

(** C4, as the code has it: for [ΔP_load = 0.1], [H = 1], [s = 0.10],
    regulation on and no lag, the returned floor is
    [50 - 0.1 / (1 / (50 * 0.10)) = 50 - 0.5 = 49.5] Hz; the run returns
    it whenever the integrator returns a solution with a frequency row. *)
Theorem scenario_B_floor
    (integrate : ivp_call -> result OdeResult)
    (plot : plot_call -> result unit)
    (T_ΔP : pyobj) (T_fcr : Q) :
  (forall sol f rows,
     integrate (sim_call 0.1 T_ΔP 1 T_fcr false (1 / (50 * 0.10))) = Ok sol ->
     sol_y sol = f :: rows ->
     exists P_fcr,
       run integrate plot
         (sim_freq_response 0.1 T_ΔP 1 0.10 T_fcr true false)
       = Ok (sol_t sol, f, P_fcr, 50 - 0.1 / (1 / (50 * 0.10)))) /\
  (forall t f P_fcr f_lim,
     run integrate plot
       (sim_freq_response 0.1 T_ΔP 1 0.10 T_fcr true false)
     = Ok (t, f, P_fcr, f_lim) ->
     f_lim = 50 - 0.1 / (1 / (50 * 0.10)) /\ f_lim == 49.5) /\
  0.1 / (1 / (50 * 0.10)) == 0.5.
Proof.
  split; [| split; [| reflexivity]].
  - intros sol f rows Hsol Hy. eexists.
    apply (run_sim_freq_response_returns integrate plot 0.1 T_ΔP 1 0.10
             T_fcr true false (1 / (50 * 0.10))
             (50 - 0.1 / (1 / (50 * 0.10))) sol).
    + reflexivity.
    + exact Hsol.
    + now apply extract_output_no_lag with (rows := rows).
  - intros t f P_fcr f_lim Hrun.
    apply run_sim_freq_response_inv in Hrun
      as (K & fl & sol & HK & _ & Hx).
    apply droop_gain_inv in HK as (-> & ->).
    apply extract_output_floor in Hx. simpl in Hx. subst f_lim.
    split; reflexivity.
Qed.

Lemma scenario_B_floor_witness :
  exists t f P_fcr f_lim,
    run (euler 12) no_plot
      (sim_freq_response 0.1 (Num t_fin) 1 0.10 1 true false)
      = Ok (t, f, P_fcr, f_lim) /\
    f_lim = 50 - 0.1 / (1 / (50 * 0.10)) /\
    f_lim == 49.5.
Proof.
  pose proof (scenario_B_floor (euler 12) no_plot (Num t_fin) 1)
    as (Hreturns & Hfloor & _).
  destruct (euler 12 (sim_call 0.1 (Num t_fin) 1 1 false (1 / (50 * 0.10))))
    as [sol |] eqn:Hsol; [| vm_compute in Hsol; discriminate Hsol].
  destruct (sol_y sol) as [| f rows] eqn:Hy.
  { vm_compute in Hsol. injection Hsol as <-. discriminate Hy. }
  destruct (Hreturns sol f rows eq_refl Hy) as (P_fcr & Hrun).
  do 4 eexists. split; [exact Hrun |].
  exact (Hfloor _ _ _ _ Hrun).
Defined.

(** C4, as it is worded, fails: the floor returned in scenario B is not
    49.95 Hz. *)
Lemma scenario_B_floor_is_not_49_95 :
  exists t f P_fcr f_lim,
    run (euler 12) no_plot
      (sim_freq_response 0.1 (Num t_fin) 1 0.10 1 true false)
      = Ok (t, f, P_fcr, f_lim) /\
    ~ f_lim == 49.95.
Proof.
  do 4 eexists. split.
  - vm_compute. reflexivity.
  - intros E. vm_compute in E. discriminate E.
Qed.

(** In binary64 the floor of scenario B is 49.5 exactly, and so is not the
    float 49.95. *)
Lemma scenario_B_floor_binary64 :
  floor_binary64 b64_0_1 b64_0_1 = 49.5%float /\
  PrimFloat.eqb (floor_binary64 b64_0_1 b64_0_1) b64_49_95 = false.
Proof. split; reflexivity. Qed.

(** ** The interactive entry point *)

(** The two recognised options are replaced by their durations. *)
Lemma freq_response_interact_recognised (ΔP_load H s T_fcr : Q)
    (fcr fcr_lag zoom_freq : bool) :
  freq_response_interact ΔP_load H s T_fcr fcr fcr_lag zoom_freq
    (Str "permanent")
  = freq_response_interact ΔP_load H s T_fcr fcr fcr_lag zoom_freq
      (Num t_fin) /\
  freq_response_interact ΔP_load H s T_fcr fcr fcr_lag zoom_freq (Str "4 s")
  = freq_response_interact ΔP_load H s T_fcr fcr fcr_lag zoom_freq (Num 4).
Proof. split; reflexivity. Qed.

(** With a string for [T_ΔP], the right-hand side raises [TypeError] at
    every [t >= 0], on every state of the right length. *)
Lemma fder_string_duration (ΔP_load : Q) (str : string) (T_fcr : Q)
    (fcr_lag : bool) (J K t f : Q) (rest : list Q) :
  0 <= t -> (fcr_lag = true -> rest <> []) ->
  fder ΔP_load (Str str) T_fcr fcr_lag J K t (f :: rest) = Raise TypeError.
Proof.
  intros Ht Hlen. unfold fder, swing, P_load_at, getitem. simpl.
  assert (Qle_bool 0 t = true) as Hle by now apply Qle_bool_iff.
  destruct fcr_lag.
  - destruct rest as [| P rest]; [now destruct (Hlen eq_refl) |].
    simpl. now rewrite Hle.
  - now rewrite Hle.
Qed.

(** Any other string goes through unchanged: with a defined gain, the
    first action of [freq_response_interact] is the call to the integrator,
    with the string as [T_ΔP]. *)
Lemma freq_response_interact_unrecognised (ΔP_load H s T_fcr : Q)
    (fcr fcr_lag zoom_freq : bool) (str : string) :
  (fcr = true -> 0 < s) ->
  String.eqb str "permanent" = false ->
  String.eqb str "4 s" = false ->
  exists K k,
    freq_response_interact ΔP_load H s T_fcr fcr fcr_lag zoom_freq (Str str)
    = Solve_ivp (sim_call ΔP_load (Str str) H T_fcr fcr_lag K) k.
Proof.
  intros Hs Hp H4.
  destruct (sim_freq_response_shape ΔP_load (Str str) H s T_fcr fcr fcr_lag
              Hs) as (K & f_lim & _ & _ & Hsim).
  exists K. unfold freq_response_interact. simpl eq_str.
  rewrite Hp, H4. cbv zeta. rewrite Hsim. simpl. eauto.
Qed.

(** C5 on the code: with the option ['2 s'], neither ['permanent'] nor
    ['4 s'], [freq_response_interact] does not raise [ValueError]: its
    first action is the call to the integrator, with [T_ΔP] still the
    string.  The right-hand side of that call raises [TypeError] from
    [t = 0] on, which is how the run ends. *)
Theorem freq_response_interact_unknown_option_runs :
  (exists k,
     freq_response_interact 0.1 1 0.10 1 false false false (Str "2 s")
     = Solve_ivp (sim_call 0.1 (Str "2 s") 1 1 false 0) k) /\
  freq_response_interact 0.1 1 0.10 1 false false false (Str "2 s")
    <> Return (Raise ValueError) /\
  (exists z,
     rhs (sim_call 0.1 (Str "2 s") 1 1 false 0) (-1) [50] = Ok [Some z] /\
     z == 0) /\
  rhs (sim_call 0.1 (Str "2 s") 1 1 false 0) 0 [50] = Raise TypeError /\
  run (euler 12) no_plot
    (freq_response_interact 0.1 1 0.10 1 false false false (Str "2 s"))
    = Raise TypeError.
Proof.
  split; [| split; [| split; [| split]]].
  - eexists. reflexivity.
  - discriminate.
  - eexists. split; [vm_compute; reflexivity | reflexivity].
  - reflexivity.
  - vm_compute. reflexivity.
Qed.

(** * Further properties of the code *)

(** ** Arithmetic of the swing equation *)

Lemma pi_pos : 0 < pi.
Proof. reflexivity. Qed.

Lemma inv_Ω0_sq_pos : 0 < / Ω0 ^ 2.
Proof. reflexivity. Qed.

Lemma J_pos (H : Q) : 0 < H -> 0 < 2 * H * Sg / Ω0 ^ 2.
Proof.
  intros HH. pose proof inv_Ω0_sq_pos as Hi.
  unfold Qdiv, Sg. set (u := / Ω0 ^ 2) in *. nra.
Qed.

Lemma J_zero_iff (H : Q) : 2 * H * Sg / Ω0 ^ 2 == 0 <-> H == 0.
Proof.
  pose proof inv_Ω0_sq_pos as Hi.
  unfold Qdiv, Sg. set (u := / Ω0 ^ 2) in *.
  split; intros E.
  - destruct (Qmult_integral _ _ E) as [E' | E']; lra.
  - rewrite E. ring.
Qed.

(** The divisor [J*Ω] vanishes exactly when the inertia or the frequency
    does. *)
Lemma JΩ_zero_iff (H f : Q) :
  2 * H * Sg / Ω0 ^ 2 * (2 * pi * f) == 0 <-> H == 0 \/ f == 0.
Proof.
  pose proof pi_pos as Hpi.
  split.
  - intros E. destruct (Qmult_integral _ _ E) as [E' | E'].
    + left. now apply J_zero_iff.
    + right. destruct (Qmult_integral _ _ E') as [E2 | E2]; [lra | exact E2].
  - intros [E | E].
    + apply J_zero_iff in E. rewrite E. ring.
    + rewrite E. ring.
Qed.

Lemma Qeq_bool_false (a b : Q) : ~ a == b -> Qeq_bool a b = false.
Proof.
  intros NE. destruct (Qeq_bool a b) eqn:E; [| reflexivity].
  apply Qeq_bool_iff in E. contradiction.
Qed.

Lemma np_div_finite (a b : Q) : ~ b == 0 -> np_div (Some a) b = Some (a / b).
Proof. intros NZ. unfold np_div. now rewrite Qeq_bool_false. Qed.

Lemma np_div_by_zero (a b : Q) : b == 0 -> np_div (Some a) b = None.
Proof.
  intros Z. unfold np_div.
  now apply Qeq_bool_iff in Z as ->.
Qed.

Lemma two_pi_nonzero : ~ 2 * pi == 0.
Proof. pose proof pi_pos. lra. Qed.

(** The value of [swing] away from the singularity. *)
Lemma swing_finite (ΔP_load : Q) (T_ΔP : pyobj) (J t f P_fcr P_load : Q) :
  P_load_at ΔP_load T_ΔP t = Ok P_load ->
  ~ J * (2 * pi * f) == 0 ->
  swing ΔP_load T_ΔP J t f P_fcr =
    Ok (Some ((- P_load + P_fcr) / (J * (2 * pi * f)) / (2 * pi))).
Proof.
  intros HP NZ. unfold swing. rewrite HP. cbn [bind].
  rewrite np_div_finite by exact NZ.
  now rewrite np_div_finite by exact two_pi_nonzero.
Qed.

Lemma swing_singular (ΔP_load : Q) (T_ΔP : pyobj) (J t f P_fcr P_load : Q) :
  P_load_at ΔP_load T_ΔP t = Ok P_load ->
  J * (2 * pi * f) == 0 ->
  swing ΔP_load T_ΔP J t f P_fcr = Ok None.
Proof.
  intros HP Z. unfold swing. rewrite HP. cbn [bind].
  now rewrite np_div_by_zero by exact Z.
Qed.

Lemma fder_no_lag_eq (ΔP_load : Q) (T_ΔP : pyobj) (T_fcr J K t f : Q)
    (rest : list Q) :
  fder ΔP_load T_ΔP T_fcr false J K t (f :: rest) =
    (f_dot <- swing ΔP_load T_ΔP J t f (- K * (f - f0)) ;; Ok [f_dot]).
Proof. reflexivity. Qed.

Lemma fder_lag_eq (ΔP_load : Q) (T_ΔP : pyobj) (T_fcr J K t f P : Q)
    (rest : list Q) :
  fder ΔP_load T_ΔP T_fcr true J K t (f :: P :: rest) =
    (f_dot <- swing ΔP_load T_ΔP J t f P ;;
     Ok [f_dot; np_div (Some (- K * (f - f0) - P)) T_fcr]).
Proof. reflexivity. Qed.

(** The sign of a quotient by a positive divisor is the sign of the
    dividend. *)
Lemma Qdiv_pos_sign (n d : Q) :
  0 < d ->
  (0 < n / d <-> 0 < n) /\ (n / d < 0 <-> n < 0) /\ (n / d == 0 <-> n == 0).
Proof.
  intros Hd. unfold Qdiv.
  assert (0 < / d) as Hi by now apply Qinv_lt_0_compat.
  set (u := / d) in *.
  repeat split; intros HH; nra.
Qed.

Lemma swing_sign (n d1 d2 : Q) :
  0 < d1 -> 0 < d2 ->
  (0 < n / d1 / d2 <-> 0 < n) /\ (n / d1 / d2 < 0 <-> n < 0) /\
  (n / d1 / d2 == 0 <-> n == 0).
Proof.
  intros H1 H2.
  destruct (Qdiv_pos_sign n d1 H1) as (Hp1 & Hn1 & Hz1).
  destruct (Qdiv_pos_sign (n / d1) d2 H2) as (Hp2 & Hn2 & Hz2).
  tauto.
Qed.

Lemma two_pi_pos : 0 < 2 * pi.
Proof. pose proof pi_pos. lra. Qed.

(** ** The gain computation *)

Lemma gain_nonzero (s : Q) : ~ s == 0 -> ~ Sg / (f0 * s) == 0.
Proof.
  intros Hs E. unfold Sg, f0, Qdiv in E.
  assert (~ 50 * s == 0) as NZ by lra.
  pose proof (Qmult_inv_r _ NZ) as Hinv.
  set (u := / (50 * s)) in *. nra.
Qed.

Lemma droop_gain_defined (ΔP_load s : Q) :
  ~ s == 0 ->
  droop_gain true ΔP_load s =
    Ok (Sg / (f0 * s), f0 - ΔP_load / (Sg / (f0 * s))).
Proof.
  intros Hs. unfold droop_gain.
  rewrite truediv_ok by (unfold f0; lra). cbn [bind].
  rewrite truediv_ok by now apply gain_nonzero.
  reflexivity.
Qed.

Lemma droop_gain_zero_droop (ΔP_load s : Q) :
  s == 0 -> droop_gain true ΔP_load s = Raise ZeroDivisionError.
Proof.
  intros Hs. unfold droop_gain, truediv.
  assert (Qeq_bool (f0 * s) 0 = true) as ->
    by (apply Qeq_bool_iff; rewrite Hs; reflexivity).
  reflexivity.
Qed.

(** X1: [sim_freq_response] raises [ZeroDivisionError], before the
    integrator is called, exactly when the regulation is on and the droop
    [s] is zero; in every other case (a negative droop included) its first
    action is the call to the integrator. *)
Theorem sim_freq_response_zero_division (ΔP_load : Q) (T_ΔP : pyobj)
    (H s T_fcr : Q) (fcr fcr_lag : bool) :
  (fcr = true /\ s == 0 ->
   sim_freq_response ΔP_load T_ΔP H s T_fcr fcr fcr_lag
   = Return (Raise ZeroDivisionError)) /\
  (~ (fcr = true /\ s == 0) ->
   exists K f_lim,
     sim_freq_response ΔP_load T_ΔP H s T_fcr fcr fcr_lag
     = Solve_ivp (sim_call ΔP_load T_ΔP H T_fcr fcr_lag K)
         (fun sol => Return (extract_output fcr_lag K f_lim sol))).
Proof.
  split.
  - intros (-> & Hs).
    apply sim_freq_response_raise. now apply droop_gain_zero_droop.
  - intros Hn. destruct fcr.
    + assert (~ s == 0) as Hs by (intros E; apply Hn; auto).
      do 2 eexists. apply sim_freq_response_call.
      now apply droop_gain_defined.
    + do 2 eexists. now apply sim_freq_response_call.
Qed.

Lemma sim_freq_response_zero_division_witness :
  sim_freq_response 0.1 (Num 10) 1 0 1 true false
  = Return (Raise ZeroDivisionError) /\
  exists K f_lim,
    sim_freq_response 0.1 (Num 10) 1 (-0.05) 1 true false
    = Solve_ivp (sim_call 0.1 (Num 10) 1 1 false K)
        (fun sol => Return (extract_output false K f_lim sol)).
Proof.
  split.
  - apply (sim_freq_response_zero_division 0.1 (Num 10) 1 0 1 true false).
    split; reflexivity.
  - apply (sim_freq_response_zero_division
             0.1 (Num 10) 1 (-0.05) 1 true false).
    intros (_ & E). discriminate E.
Defined.

(** X2: with the regulation on and a positive droop, the returned floor
    is below the nominal frequency for a consumption excess and above it
    for a deficit ([f_lim <= f0] when [ΔP_load >= 0], [f_lim >= f0] when
    [ΔP_load <= 0]); it does not rise when the load step grows, nor, for a
    consumption excess, when the droop grows. *)
Theorem floor_monotone
    (integrate integrate' : ivp_call -> result OdeResult)
    (plot plot' : plot_call -> result unit)
    (ΔP_load ΔP_load' : Q) (T_ΔP T_ΔP' : pyobj)
    (H H' s s' T_fcr T_fcr' : Q) (fcr_lag fcr_lag' : bool)
    (t f P_fcr t' f' P_fcr' : list Q) (f_lim f_lim' : Q) :
  0 < s -> 0 < s' ->
  run integrate plot
    (sim_freq_response ΔP_load T_ΔP H s T_fcr true fcr_lag)
  = Ok (t, f, P_fcr, f_lim) ->
  run integrate' plot'
    (sim_freq_response ΔP_load' T_ΔP' H' s' T_fcr' true fcr_lag')
  = Ok (t', f', P_fcr', f_lim') ->
  (0 <= ΔP_load -> f_lim <= f0) /\
  (ΔP_load <= 0 -> f0 <= f_lim) /\
  (s == s' -> ΔP_load <= ΔP_load' -> f_lim' <= f_lim) /\
  (ΔP_load == ΔP_load' -> 0 <= ΔP_load -> s <= s' -> f_lim' <= f_lim).
Proof.
  intros Hs Hs' Hrun Hrun'.
  apply run_sim_freq_response_inv in Hrun as (K & fl & sol & HK & _ & Hx).
  apply run_sim_freq_response_inv in Hrun'
    as (K' & fl' & sol' & HK' & _ & Hx').
  apply droop_gain_inv in HK as (-> & ->).
  apply droop_gain_inv in HK' as (-> & ->).
  apply extract_output_floor in Hx, Hx'. simpl in Hx, Hx'.
  subst f_lim f_lim'.
  assert (forall a b, 0 < b -> f0 - a / (Sg / (f0 * b)) == 50 - 50 * (a * b))
    as Hform by (intros a b Hb; unfold Sg, f0; field; lra).
  rewrite (Hform ΔP_load s Hs), (Hform ΔP_load' s' Hs').
  unfold f0.
  split; [| split; [| split]].
  - intros Hpos. nra.
  - intros Hneg. nra.
  - intros Es Hle. rewrite <- Es. nra.
  - intros EΔ Hpos Hle. rewrite <- EΔ. nra.
Qed.

Lemma floor_monotone_witness :
  exists t f P_fcr f_lim t' f' P_fcr' f_lim',
    run (euler 12) no_plot
      (sim_freq_response 0.1 (Num t_fin) 1 0.04 1 true true)
    = Ok (t, f, P_fcr, f_lim) /\
    run (euler 12) no_plot
      (sim_freq_response 0.1 (Num t_fin) 1 0.10 1 true false)
    = Ok (t', f', P_fcr', f_lim') /\
    (0 <= 0.1 -> f_lim <= f0) /\
    (0.1 <= 0 -> f0 <= f_lim) /\
    (0.04 == 0.10 -> 0.1 <= 0.1 -> f_lim' <= f_lim) /\
    (0.1 == 0.1 -> 0 <= 0.1 -> 0.04 <= 0.10 -> f_lim' <= f_lim).
Proof.
  do 8 eexists. split; [vm_compute; reflexivity |].
  split; [vm_compute; reflexivity |].
  eapply (floor_monotone (euler 12) (euler 12) no_plot no_plot
            0.1 0.1 (Num t_fin) (Num t_fin) 1 1 0.04 0.10 1 1 true false).
  - reflexivity.
  - reflexivity.
  - vm_compute. reflexivity.
  - vm_compute. reflexivity.
Defined.

(** ** The dynamics *)

Lemma JΩ_nonzero (H f : Q) :
  ~ H == 0 -> ~ f == 0 -> ~ 2 * H * Sg / Ω0 ^ 2 * (2 * pi * f) == 0.
Proof.
  intros HH Hf E. apply JΩ_zero_iff in E. tauto.
Qed.

Lemma JΩ_pos (H f : Q) :
  0 < H -> 0 < f -> 0 < 2 * H * Sg / Ω0 ^ 2 * (2 * pi * f).
Proof.
  intros HH Hf. pose proof (J_pos H HH) as HJ. pose proof pi_pos as Hpi.
  apply Qmult_lt_0_compat; [exact HJ |].
  apply Qmult_lt_0_compat; [lra | exact Hf].
Qed.

Lemma Qdiv2_zero (n d1 d2 : Q) : n == 0 -> n / d1 / d2 == 0.
Proof. intros E. rewrite E. unfold Qdiv. ring. Qed.

Lemma Qdiv_zero (n d : Q) : n == 0 -> n / d == 0.
Proof. intros E. rewrite E. unfold Qdiv. ring. Qed.

Lemma f_ini_nonzero : ~ f_ini == 0.
Proof. unfold f_ini. lra. Qed.

(** X4: before the load step ([t < 0]) the initial state is at rest: every
    component of the derivative at [x_ini] is zero, whatever the gain, the
    load and [T_ΔP] are (inertia not zero, and time constant not zero with
    the lag). *)
Theorem initial_state_at_rest (ΔP_load : Q) (T_ΔP : pyobj)
    (H T_fcr K t : Q) (fcr_lag : bool) :
  t < 0 -> ~ H == 0 -> (fcr_lag = true -> ~ T_fcr == 0) ->
  exists d,
    fder ΔP_load T_ΔP T_fcr fcr_lag (2 * H * Sg / Ω0 ^ 2) K t (x_ini fcr_lag)
    = Ok d /\
    length d = length (x_ini fcr_lag) /\
    Forall (fun di => exists z, di = Some z /\ z == 0) d.
Proof.
  intros Ht HH HT.
  pose proof (P_load_at_negative ΔP_load T_ΔP t Ht) as HP.
  pose proof (JΩ_nonzero H f_ini HH f_ini_nonzero) as NZ.
  destruct fcr_lag; unfold x_ini.
  - rewrite fder_lag_eq.
    rewrite (swing_finite _ _ _ _ _ _ _ HP NZ). cbn [bind].
    rewrite np_div_finite by now apply HT.
    eexists. split; [reflexivity | split; [reflexivity |]].
    repeat constructor.
    + eexists. split; [reflexivity |].
      apply Qdiv2_zero. ring.
    + eexists. split; [reflexivity |].
      apply Qdiv_zero. unfold f_ini, f0. ring.
  - rewrite fder_no_lag_eq.
    rewrite (swing_finite _ _ _ _ _ _ _ HP NZ). cbn [bind].
    eexists. split; [reflexivity | split; [reflexivity |]].
    repeat constructor.
    eexists. split; [reflexivity |].
    apply Qdiv2_zero. unfold f_ini, f0. ring.
Qed.

Lemma initial_state_at_rest_witness :
  exists d,
    fder 0.1 (Str "2 s") 1 true (2 * 1 * Sg / Ω0 ^ 2) 0.2 (-0.5) (x_ini true)
    = Ok d /\
    length d = length (x_ini true) /\
    Forall (fun di => exists z, di = Some z /\ z == 0) d.
Proof.
  apply (initial_state_at_rest 0.1 (Str "2 s") 1 1 0.2 (-0.5) true).
  - reflexivity.
  - discriminate.
  - intros _. discriminate.
Defined.

Lemma RoCoF_defined (H ΔP_load : Q) :
  ~ H == 0 -> RoCoF H ΔP_load = Ok (- f0 / (2 * H) * ΔP_load).
Proof.
  intros HH. unfold RoCoF. rewrite truediv_ok by lra. reflexivity.
Qed.

(** X5: the RoCoF slope drawn by [plot_freq_response],
    [-f0/(2*H) * ΔP_load], points the way the simulation starts: for a
    positive inertia it has the sign of the derivative of the frequency
    that [fder] gives at the initial state while the load step lasts,
    negative for a consumption excess, positive for a deficit and zero
    without load step.  With [H = 0] the slope raises
    [ZeroDivisionError]. *)
Theorem RoCoF_initial_slope_sign (ΔP_load : Q) (T_ΔP : pyobj)
    (H T_fcr K t : Q) (fcr_lag : bool) :
  (H == 0 -> RoCoF H ΔP_load = Raise ZeroDivisionError) /\
  (0 < H -> 0 <= t -> before t T_ΔP ->
   exists r z tail,
     RoCoF H ΔP_load = Ok r /\
     fder ΔP_load T_ΔP T_fcr fcr_lag (2 * H * Sg / Ω0 ^ 2) K t
       (x_ini fcr_lag) = Ok (Some z :: tail) /\
     (r < 0 <-> 0 < ΔP_load) /\ (0 < r <-> ΔP_load < 0) /\
     (z < 0 <-> r < 0) /\ (0 < z <-> 0 < r) /\ (z == 0 <-> r == 0)).
Proof.
  split.
  - intros E. unfold RoCoF, truediv.
    assert (Qeq_bool (2 * H) 0 = true) as ->
      by (apply Qeq_bool_iff; rewrite E; reflexivity).
    reflexivity.
  - intros HH Ht Hb.
    pose proof (P_load_at_in_step ΔP_load T_ΔP t Ht Hb) as HP.
    assert (0 < f_ini) as Hf by reflexivity.
    pose proof (JΩ_pos H f_ini HH Hf) as Hpos.
    assert (~ 2 * H * Sg / Ω0 ^ 2 * (2 * pi * f_ini) == 0) as NZ by lra.
    assert (~ H == 0) as HHnz by lra.
    assert (0 < / (2 * H)) as Hinv by (apply Qinv_lt_0_compat; lra).
    assert ((- f0 / (2 * H) * ΔP_load < 0 <-> 0 < ΔP_load) /\
            (0 < - f0 / (2 * H) * ΔP_load <-> ΔP_load < 0) /\
            (- f0 / (2 * H) * ΔP_load == 0 <-> ΔP_load == 0)) as (Hr1 & Hr2 & Hr3).
    { unfold Qdiv, f0. set (u := / (2 * H)) in *.
      repeat split; intros HH'; nra. }
    exists (- f0 / (2 * H) * ΔP_load).
    destruct fcr_lag; unfold x_ini.
    + rewrite fder_lag_eq.
      rewrite (swing_finite _ _ _ _ _ _ _ HP NZ). cbn [bind].
      do 2 eexists. split; [now apply RoCoF_defined | split; [reflexivity |]].
      destruct (swing_sign (- ΔP_load + 0) _ _ Hpos two_pi_pos)
        as (Hp & Hn & Hz).
      rewrite Hp, Hn, Hz, Hr1, Hr2, Hr3.
      repeat split; intros HH'; lra.
    + rewrite fder_no_lag_eq.
      rewrite (swing_finite _ _ _ _ _ _ _ HP NZ). cbn [bind].
      do 2 eexists. split; [now apply RoCoF_defined | split; [reflexivity |]].
      destruct (swing_sign (- ΔP_load + - K * (f_ini - f0)) _ _ Hpos
                  two_pi_pos) as (Hp & Hn & Hz).
      rewrite Hp, Hn, Hz, Hr1, Hr2, Hr3.
      unfold f_ini, f0.
      repeat split; intros HH'; lra.
Qed.

Lemma RoCoF_initial_slope_sign_witness :
  RoCoF 0 0.1 = Raise ZeroDivisionError /\
  exists r z tail,
    RoCoF 5 0.1 = Ok r /\
    fder 0.1 (Num 10) 1 false (2 * 5 * Sg / Ω0 ^ 2) 0.2 0 (x_ini false)
    = Ok (Some z :: tail) /\
    (r < 0 <-> 0 < 0.1) /\ (0 < r <-> 0.1 < 0) /\
    (z < 0 <-> r < 0) /\ (0 < z <-> 0 < r) /\ (z == 0 <-> r == 0).
Proof.
  split.
  - apply (RoCoF_initial_slope_sign 0.1 (Num 10) 0 1 0.2 0 false).
    reflexivity.
  - apply (RoCoF_initial_slope_sign 0.1 (Num 10) 5 1 0.2 0 false).
    + reflexivity.
    + discriminate.
    + reflexivity.
Defined.



(** X7: with the regulation off (gain 0) and no lag, every positive
    frequency declines while a positive load step lasts: the derivative is
    negative, which is why the floor is then the blackout value 0. *)
Theorem frequency_declines_without_regulation (ΔP_load : Q) (T_ΔP : pyobj)
    (H T_fcr t f : Q) :
  0 < ΔP_load -> 0 < H -> 0 < f ->
  0 <= t -> before t T_ΔP ->
  exists z,
    fder ΔP_load T_ΔP T_fcr false (2 * H * Sg / Ω0 ^ 2) 0 t [f]
    = Ok [Some z] /\ z < 0.
Proof.
  intros HΔ HH Hf Ht Hb.
  pose proof (P_load_at_in_step ΔP_load T_ΔP t Ht Hb) as HP.
  pose proof (JΩ_pos H f HH Hf) as Hpos.
  assert (~ 2 * H * Sg / Ω0 ^ 2 * (2 * pi * f) == 0) as NZ by lra.
  rewrite fder_no_lag_eq.
  rewrite (swing_finite _ _ _ _ _ _ _ HP NZ). cbn [bind].
  eexists. split; [reflexivity |].
  apply (swing_sign (- ΔP_load + - 0 * (f - f0)) _ _ Hpos two_pi_pos).
  lra.
Qed.

Lemma frequency_declines_without_regulation_witness :
  exists z,
    fder 0.1 (Num 10) 1 false (2 * 1 * Sg / Ω0 ^ 2) 0 2 [30]
    = Ok [Some z] /\ z < 0.
Proof.
  apply (frequency_declines_without_regulation 0.1 (Num 10) 1 1 2 30);
    try reflexivity.
  discriminate.
Defined.

Lemma P_load_at_duration (ΔP_load : Q) (T_ΔP : pyobj) (t : Q) :
  is_duration T_ΔP -> exists P_load, P_load_at ΔP_load T_ΔP t = Ok P_load.
Proof.
  intros Hd. unfold P_load_at.
  destruct T_ΔP as [d | | str]; [| | contradiction];
    destruct (Qle_bool 0 t); simpl; eauto.
Qed.

(** X8: on a state of the right length and for a duration [T_ΔP], the
    derivative of the frequency is not finite (the division by [J*Ω] has a
    zero divisor) exactly when the inertia [H] or the frequency [f] is
    zero; [fder] raises nothing then. *)
Theorem fder_singular_iff (ΔP_load : Q) (T_ΔP : pyobj) (H T_fcr K t f : Q)
    (fcr_lag : bool) (rest : list Q) :
  is_duration T_ΔP ->
  (fcr_lag = true -> rest <> []) ->
  exists f_dot tail,
    fder ΔP_load T_ΔP T_fcr fcr_lag (2 * H * Sg / Ω0 ^ 2) K t (f :: rest)
    = Ok (f_dot :: tail) /\
    (f_dot = None <-> H == 0 \/ f == 0).
Proof.
  intros Hd Hlen.
  destruct (P_load_at_duration ΔP_load T_ΔP t Hd) as (L & HP).
  set (J := 2 * H * Sg / Ω0 ^ 2).
  assert (forall P_fcr, exists f_dot,
            swing ΔP_load T_ΔP J t f P_fcr = Ok f_dot /\
            (f_dot = None <-> H == 0 \/ f == 0)) as Hswing.
  { intros P_fcr.
    destruct (Qeq_dec (J * (2 * pi * f)) 0) as [Z | NZ].
    - rewrite (swing_singular _ _ _ _ _ _ _ HP Z).
      eexists. split; [reflexivity |].
      split; [intros _; now apply JΩ_zero_iff | reflexivity].
    - rewrite (swing_finite _ _ _ _ _ _ _ HP NZ).
      eexists. split; [reflexivity |].
      split; [discriminate |].
      intros E. exfalso. apply NZ. now apply JΩ_zero_iff. }
  destruct fcr_lag.
  - destruct rest as [| P rest]; [now destruct (Hlen eq_refl) |].
    rewrite fder_lag_eq.
    destruct (Hswing P) as (f_dot & -> & Hiff). cbn [bind]. eauto.
  - rewrite fder_no_lag_eq.
    destruct (Hswing (- K * (f - f0))) as (f_dot & -> & Hiff).
    cbn [bind]. eauto.
Qed.

Lemma fder_singular_iff_witness :
  exists f_dot tail,
    fder 0.1 (Num 10) 1 true (2 * 1 * Sg / Ω0 ^ 2) 0.2 2 [0; 0.1]
    = Ok (f_dot :: tail) /\
    (f_dot = None <-> 1 == 0 \/ 0 == 0).
Proof.
  apply (fder_singular_iff 0.1 (Num 10) 1 1 0.2 2 0 true [0.1]).
  - exact I.
  - discriminate.
Defined.

(** X9: [fder] reads the first component of the state, and the second one
    only with the lag: it raises [IndexError] on an empty state and, with
    the lag, on a state of one component; for a duration [T_ΔP] it
    otherwise returns a derivative of 1 component without the lag and 2
    with it, and further components of the state are ignored. *)
Theorem fder_state_shape (ΔP_load : Q) (T_ΔP : pyobj) (T_fcr J K t : Q)
    (fcr_lag : bool) :
  fder ΔP_load T_ΔP T_fcr fcr_lag J K t [] = Raise IndexError /\
  (forall f, fder ΔP_load T_ΔP T_fcr true J K t [f] = Raise IndexError) /\
  (is_duration T_ΔP ->
   forall f P rest,
     (exists d,
        fder ΔP_load T_ΔP T_fcr fcr_lag J K t (f :: P :: rest) = Ok d /\
        length d = (if fcr_lag then 2%nat else 1%nat)) /\
     fder ΔP_load T_ΔP T_fcr fcr_lag J K t (f :: P :: rest)
     = fder ΔP_load T_ΔP T_fcr fcr_lag J K t
         (if fcr_lag then [f; P] else [f])).
Proof.
  split; [reflexivity | split; [reflexivity |]].
  intros Hd f P rest.
  destruct (P_load_at_duration ΔP_load T_ΔP t Hd) as (L & HP).
  split.
  - destruct fcr_lag.
    + rewrite fder_lag_eq. unfold swing. rewrite HP. cbn [bind]. eauto.
    + rewrite fder_no_lag_eq. unfold swing. rewrite HP. cbn [bind]. eauto.
  - now destruct fcr_lag.
Qed.

Lemma fder_state_shape_witness :
  fder 0.1 (Num 10) 1 true 1 0.2 2 [] = Raise IndexError /\
  (forall f, fder 0.1 (Num 10) 1 true 1 0.2 2 [f] = Raise IndexError) /\
  (forall f P rest,
     (exists d,
        fder 0.1 (Num 10) 1 true 1 0.2 2 (f :: P :: rest) = Ok d /\
        length d = 2%nat) /\
     fder 0.1 (Num 10) 1 true 1 0.2 2 (f :: P :: rest)
     = fder 0.1 (Num 10) 1 true 1 0.2 2 [f; P]).
Proof.
  destruct (fder_state_shape 0.1 (Num 10) 1 1 0.2 2 true)
    as (Hempty & Hshort & Hlong).
  split; [exact Hempty | split; [exact Hshort | exact (Hlong I)]].
Defined.

(** X10: with the lag and a positive time constant, the filtered power
    moves toward the droop target [-K*(f - f0)]: on a state [(f, P)] its
    derivative is positive when [P] is below the target, negative when it
    is above, and zero only on the target. *)
Theorem filtered_power_moves_toward_droop (ΔP_load : Q) (T_ΔP : pyobj)
    (T_fcr J K t f P : Q) (rest : list Q) :
  is_duration T_ΔP -> 0 < T_fcr ->
  exists f_dot z,
    fder ΔP_load T_ΔP T_fcr true J K t (f :: P :: rest)
    = Ok [f_dot; Some z] /\
    (0 < z <-> P < - K * (f - f0)) /\ (z < 0 <-> - K * (f - f0) < P) /\
    (z == 0 <-> P == - K * (f - f0)).
Proof.
  intros Hd HT.
  destruct (P_load_at_duration ΔP_load T_ΔP t Hd) as (L & HP).
  rewrite fder_lag_eq. unfold swing. rewrite HP. cbn [bind].
  rewrite (np_div_finite _ T_fcr) by lra.
  do 2 eexists. split; [reflexivity |].
  destruct (Qdiv_pos_sign (- K * (f - f0) - P) T_fcr HT) as (Hp & Hn & Hz).
  rewrite Hp, Hn, Hz.
  set (target := - K * (f - f0)).
  repeat split; intros HH; lra.
Qed.

Lemma filtered_power_moves_toward_droop_witness :
  exists f_dot z,
    fder 0.1 (Num 10) 1 true 1 0.2 2 [49.8; 0.01] = Ok [f_dot; Some z] /\
    (0 < z <-> 0.01 < - 0.2 * (49.8 - f0)) /\
    (z < 0 <-> - 0.2 * (49.8 - f0) < 0.01) /\
    (z == 0 <-> 0.01 == - 0.2 * (49.8 - f0)).
Proof.
  apply (filtered_power_moves_toward_droop 0.1 (Num 10) 1 1 0.2 2 49.8 0.01
           []).
  - exact I.
  - reflexivity.
Defined.

(** ** Runs of the simulation *)

Lemma run_sim_freq_response_eq integrate plot (ΔP_load : Q) (T_ΔP : pyobj)
    (H s T_fcr : Q) (fcr fcr_lag : bool) (K f_lim : Q) :
  droop_gain fcr ΔP_load s = Ok (K, f_lim) ->
  run integrate plot
    (sim_freq_response ΔP_load T_ΔP H s T_fcr fcr fcr_lag)
  = (sol <- integrate (sim_call ΔP_load T_ΔP H T_fcr fcr_lag K) ;;
     extract_output fcr_lag K f_lim sol).
Proof.
  intros HK. rewrite (sim_freq_response_call _ _ _ _ _ _ _ _ _ HK).
  reflexivity.
Qed.

(** X11: in a run of [sim_freq_response] whose gain is defined, an
    exception of the integrator comes out unchanged, and a solution with
    fewer rows than the code reads (none, or a single one with the lag)
    ends the run with [IndexError]. *)
Theorem sim_freq_response_failures
    (integrate : ivp_call -> result OdeResult)
    (plot : plot_call -> result unit)
    (ΔP_load : Q) (T_ΔP : pyobj) (H s T_fcr : Q) (fcr fcr_lag : bool)
    (K f_lim : Q) :
  droop_gain fcr ΔP_load s = Ok (K, f_lim) ->
  let call := sim_call ΔP_load T_ΔP H T_fcr fcr_lag K in
  let sim := sim_freq_response ΔP_load T_ΔP H s T_fcr fcr fcr_lag in
  (forall e, integrate call = Raise e ->
             run integrate plot sim = Raise e) /\
  (forall sol, integrate call = Ok sol -> sol_y sol = [] ->
               run integrate plot sim = Raise IndexError) /\
  (forall sol f, integrate call = Ok sol -> sol_y sol = [f] ->
                 fcr_lag = true ->
                 run integrate plot sim = Raise IndexError).
Proof.
  intros HK call sim. unfold sim.
  rewrite (run_sim_freq_response_eq integrate plot _ _ _ _ _ _ _ _ _ HK).
  fold call.
  split; [| split].
  - intros e ->. reflexivity.
  - intros sol -> Hy. cbn [bind]. unfold extract_output, getitem.
    now rewrite Hy.
  - intros sol f -> Hy ->. cbn [bind]. unfold extract_output, getitem.
    now rewrite Hy.
Qed.

Lemma sim_freq_response_failures_witness :
  let integrate_none (c : ivp_call) :=
    Ok {| sol_t := [fst (t_span c)]; sol_y := [] |} in
  let integrate_one (c : ivp_call) :=
    Ok {| sol_t := [fst (t_span c)]; sol_y := [[50]] |} in
  run (fun _ => Raise ValueError) no_plot
    (sim_freq_response 0.1 (Num 10) 1 0.10 1 true true) = Raise ValueError /\
  run integrate_none no_plot
    (sim_freq_response 0.1 (Num 10) 1 0.10 1 true true) = Raise IndexError /\
  run integrate_one no_plot
    (sim_freq_response 0.1 (Num 10) 1 0.10 1 true true) = Raise IndexError.
Proof.
  intros integrate_none integrate_one.
  assert (droop_gain true 0.1 0.10
          = Ok (Sg / (f0 * 0.10), f0 - 0.1 / (Sg / (f0 * 0.10)))) as HK
    by reflexivity.
  split; [| split].
  - apply (proj1 (sim_freq_response_failures (fun _ => Raise ValueError)
                    no_plot 0.1 (Num 10) 1 0.10 1 true true _ _ HK)).
    reflexivity.
  - eapply (proj1 (proj2 (sim_freq_response_failures integrate_none
                    no_plot 0.1 (Num 10) 1 0.10 1 true true _ _ HK)));
      reflexivity.
  - eapply (proj2 (proj2 (sim_freq_response_failures integrate_one
                    no_plot 0.1 (Num 10) 1 0.10 1 true true _ _ HK)));
      reflexivity.
Defined.

(** X12: with the regulation on, no lag and a positive droop, the returned
    regulation power has the sign of the frequency deficit at every sample:
    it is positive where the frequency is below 50 Hz, negative where it is
    above, and zero where it is 50 Hz. *)
Theorem regulation_power_sign
    (integrate : ivp_call -> result OdeResult)
    (plot : plot_call -> result unit)
    (ΔP_load : Q) (T_ΔP : pyobj) (H s T_fcr : Q)
    (t f P_fcr : list Q) (f_lim : Q) :
  0 < s ->
  run integrate plot
    (sim_freq_response ΔP_load T_ΔP H s T_fcr true false)
  = Ok (t, f, P_fcr, f_lim) ->
  forall i fi Pi,
    nth_error f i = Some fi -> nth_error P_fcr i = Some Pi ->
    (0 < Pi <-> fi < 50) /\ (Pi < 0 <-> 50 < fi) /\ (Pi == 0 <-> fi == 50).
Proof.
  intros Hs Hrun i fi Pi Hf HP.
  pose proof (gain_positive s Hs) as HK.
  apply run_sim_freq_response_inv in Hrun as (K & fl & sol & HKeq & _ & Hx).
  apply droop_gain_inv in HKeq as (-> & _).
  apply extract_output_inv in Hx as (_ & _ & _ & ->).
  rewrite nth_error_map, Hf in HP. simpl in HP. injection HP as <-.
  set (K := Sg / (f0 * s)) in *. unfold f0.
  repeat split; intros HH; nra.
Qed.

Lemma regulation_power_sign_witness :
  exists t f P_fcr f_lim,
    run (euler 12) no_plot
      (sim_freq_response 0.1 (Num t_fin) 1 0.10 1 true false)
    = Ok (t, f, P_fcr, f_lim) /\
    forall i fi Pi,
      nth_error f i = Some fi -> nth_error P_fcr i = Some Pi ->
      (0 < Pi <-> fi < 50) /\ (Pi < 0 <-> 50 < fi) /\
      (Pi == 0 <-> fi == 50).
Proof.
  do 4 eexists. split.
  - vm_compute. reflexivity.
  - eapply (regulation_power_sign (euler 12) no_plot 0.1 (Num t_fin) 1 0.10
              1).
    + reflexivity.
    + vm_compute. reflexivity.
Defined.

(** ** More on [find_nadir] *)

Lemma find_nadir_raises_shape (f : list Q) (e : exn) :
  find_nadir f = Raise e -> f = [].
Proof.
  intros Hr. destruct f as [| x l]; [reflexivity |]. exfalso.
  destruct (find_nadir_reads (x :: l)) as (i & v & w & Hi & _ & Hv & Hw);
    [discriminate |].
  rewrite (find_nadir_eq _ i v w Hi Hv Hw) in Hr.
  destruct ((i <? length (x :: l) - 1)%nat && (0 <? i)%nat
            && Qle_bool v (w - 0.001))%bool; discriminate Hr.
Qed.

(** X13: [find_nadir] raises only on an empty sequence, and then
    [ValueError] (from [np.argmin]); on every other sequence it returns. *)
Theorem find_nadir_raises_iff (f : list Q) (e : exn) :
  find_nadir f = Raise e <-> f = [] /\ e = ValueError.
Proof.
  split.
  - intros Hr. destruct f as [| x l].
    + split; [reflexivity |]. cbv in Hr. now injection Hr as <-.
    + exfalso.
      destruct (find_nadir_reads (x :: l)) as (i & v & w & Hi & _ & Hv & Hw);
        [discriminate |].
      rewrite (find_nadir_eq _ i v w Hi Hv Hw) in Hr.
      destruct ((i <? length (x :: l) - 1)%nat && (0 <? i)%nat
                && Qle_bool v (w - 0.001))%bool; discriminate Hr.
  - intros (-> & ->). reflexivity.
Qed.

Lemma Qlt_bool_shift (a b c : Q) : Qlt_bool (a + c) (b + c) = Qlt_bool a b.
Proof.
  destruct (Qlt_bool a b) eqn:E.
  - apply Qlt_bool_iff in E. apply Qlt_bool_iff. lra.
  - apply Qlt_bool_false in E. apply Qlt_bool_false. lra.
Qed.

Lemma Qle_bool_shift (a b c : Q) :
  Qle_bool (a + c) (b + c - 0.001) = Qle_bool a (b - 0.001).
Proof.
  destruct (Qle_bool a (b - 0.001)) eqn:E.
  - apply Qle_bool_iff in E. apply Qle_bool_iff. lra.
  - destruct (Qle_bool (a + c) (b + c - 0.001)) eqn:E'; [| reflexivity].
    apply Qle_bool_iff in E'.
    assert (a <= b - 0.001) as L by lra.
    apply Qle_bool_iff in L. congruence.
Qed.

Lemma argmin_from_shift (c : Q) (l : list Q) (i_best : nat) (best : Q)
    (i : nat) :
  argmin_from i_best (best + c) i (map (fun x => x + c) l)
  = argmin_from i_best best i l.
Proof.
  revert i_best best i.
  induction l as [| v l IH]; intros i_best best i; simpl; [reflexivity |].
  rewrite Qlt_bool_shift. destruct (Qlt_bool v best); apply IH.
Qed.

Lemma getitem_map {A B : Type} (g : A -> B) (l : list A) (i : Z) :
  getitem (map g l) i
  = match getitem l i with Ok a => Ok (g a) | Raise e => Raise e end.
Proof.
  unfold getitem. rewrite length_map.
  destruct ((if (i <? 0)%Z then (i + Z.of_nat (length l))%Z else i) <? 0)%Z;
    [reflexivity |].
  rewrite nth_error_map.
  now destruct (nth_error l _).
Qed.

Lemma argmin_shift (c : Q) (f : list Q) :
  argmin (map (fun x => x + c) f) = argmin f.
Proof.
  destruct f as [| x l]; [reflexivity |].
  simpl. now rewrite argmin_from_shift.
Qed.

(** X14: [find_nadir] does not depend on the level of the sequence: adding
    the same constant to every sample leaves the outcome and the index of
    the nadir unchanged and adds the constant to its value. *)
Theorem find_nadir_shift (f : list Q) (c : Q) :
  find_nadir (map (fun x => x + c) f)
  = match find_nadir f with
    | Ok (i_nadir, f_nadir) =>
        Ok (i_nadir, option_map (fun x => x + c) f_nadir)
    | Raise e => Raise e
    end.
Proof.
  unfold find_nadir. rewrite argmin_shift, length_map.
  destruct (argmin f) as [i |]; [| reflexivity].
  cbn [bind].
  destruct (Z.of_nat i <? Z.of_nat (length f) - 1)%Z; [| reflexivity].
  destruct (0 <? Z.of_nat i)%Z; [| reflexivity].
  rewrite !getitem_map.
  destruct (getitem f (Z.of_nat i)) as [v |]; [| reflexivity].
  cbn [bind].
  destruct (getitem f (-1)) as [w |]; [| reflexivity].
  cbn [bind]. rewrite Qle_bool_shift.
  now destruct (Qle_bool v (w - 0.001)).
Qed.

(** ** What is drawn *)

Lemma Qle_bool_false (a b : Q) : Qle_bool a b = false -> b < a.
Proof.
  intros E. apply Qnot_le_lt. intros L.
  apply Qle_bool_iff in L. congruence.
Qed.

(** Turns a boolean comparison of rationals, known by an equation, into
    the order fact it decides. *)
Ltac qbool E :=
  lazymatch type of E with
  | Qlt_bool _ _ = true => apply Qlt_bool_iff in E
  | Qlt_bool _ _ = false => apply Qlt_bool_false in E
  | Qle_bool _ _ = true => apply Qle_bool_iff in E
  | Qle_bool _ _ = false => apply Qle_bool_false in E
  end.

Lemma shown_P_load_duration (ts : list Q) (T_ΔP : pyobj) (ΔP_load : Q) :
  is_duration T_ΔP ->
  shown_P_load ts T_ΔP ΔP_load =
    Ok (map (fun ti => if Qlt_bool ti 0 || gt_duration ti T_ΔP then 0
                       else ΔP_load) ts).
Proof. destruct T_ΔP; [reflexivity | reflexivity | contradiction]. Qed.

(** X15: the load excess drawn by [plot_freq_response] has one value per
    time sample and is the load term the simulation used at that time,
    except at the very end of the step: at a sample [t = T_ΔP >= 0] the
    plot shows [ΔP_load] where the simulation used 0.  With [np.inf] the
    two agree everywhere. *)
Theorem shown_load_vs_simulated (ts : list Q) (T_ΔP : pyobj) (ΔP_load : Q) :
  is_duration T_ΔP ->
  exists shown,
    shown_P_load ts T_ΔP ΔP_load = Ok shown /\
    length shown = length ts /\
    forall i ti, nth_error ts i = Some ti ->
      exists Li,
        nth_error shown i = Some Li /\
        (T_ΔP = Inf -> P_load_at ΔP_load T_ΔP ti = Ok Li) /\
        (forall d, T_ΔP = Num d -> ~ ti == d ->
                   P_load_at ΔP_load T_ΔP ti = Ok Li) /\
        (forall d, T_ΔP = Num d -> ti == d -> 0 <= d ->
                   Li = ΔP_load /\ P_load_at ΔP_load T_ΔP ti = Ok 0).
Proof.
  intros Hd. rewrite (shown_P_load_duration ts T_ΔP ΔP_load Hd).
  eexists. split; [reflexivity | split; [apply length_map |]].
  intros i ti Hi. rewrite nth_error_map, Hi. simpl.
  eexists. split; [reflexivity |].
  unfold P_load_at.
  split; [| split].
  - intros ->. simpl. rewrite orb_false_r.
    destruct (Qlt_bool ti 0) eqn:EA; qbool EA;
      destruct (Qle_bool 0 ti) eqn:EC; qbool EC;
      first [reflexivity | exfalso; lra].
  - intros d -> Hne. simpl.
    assert (ti < d \/ d < ti) as Hcmp.
    { destruct (Q_dec ti d) as [[L | L] | E]; [now left | now right |].
      contradiction. }
    destruct (Qlt_bool ti 0) eqn:EA; qbool EA;
      destruct (Qle_bool 0 ti) eqn:EC; qbool EC;
      destruct (Qlt_bool d ti) eqn:EB; qbool EB;
      destruct (Qlt_bool ti d) eqn:ED; qbool ED;
      simpl; first [reflexivity | exfalso; lra].
  - intros d -> He H0. simpl.
    destruct (Qlt_bool ti 0) eqn:EA; qbool EA;
      destruct (Qle_bool 0 ti) eqn:EC; qbool EC;
      destruct (Qlt_bool d ti) eqn:EB; qbool EB;
      destruct (Qlt_bool ti d) eqn:ED; qbool ED;
      simpl; first [split; reflexivity | exfalso; lra].
Qed.

Lemma shown_load_vs_simulated_witness :
  exists shown,
    shown_P_load [-1; 2; 4; 5] (Num 4) 0.1 = Ok shown /\
    length shown = 4%nat /\
    forall i ti, nth_error [-1; 2; 4; 5] i = Some ti ->
      exists Li,
        nth_error shown i = Some Li /\
        (Num 4 = Inf -> P_load_at 0.1 (Num 4) ti = Ok Li) /\
        (forall d, Num 4 = Num d -> ~ ti == d ->
                   P_load_at 0.1 (Num 4) ti = Ok Li) /\
        (forall d, Num 4 = Num d -> ti == d -> 0 <= d ->
                   Li = 0.1 /\ P_load_at 0.1 (Num 4) ti = Ok 0).
Proof.
  apply (shown_load_vs_simulated [-1; 2; 4; 5] (Num 4) 0.1). exact I.
Defined.

Lemma find_nadir_some_inv (f : list Q) (i : nat) (fv : option Q) :
  find_nadir f = Ok (Some i, fv) ->
  (0 < i < length f - 1)%nat /\ exists v, fv = Some v /\ nth_error f i = Some v.
Proof.
  intros Hf.
  assert (f <> []) as NE by (intros ->; discriminate Hf).
  destruct (find_nadir_reads f NE) as (j & v & w & Hj & _ & Hv & Hw).
  rewrite (find_nadir_eq f j v w Hj Hv Hw) in Hf.
  destruct (Nat.ltb_spec j (length f - 1)) as [L1 | L1];
    [| discriminate Hf].
  destruct (Nat.ltb_spec 0 j) as [L2 | L2]; [| discriminate Hf].
  destruct (Qle_bool v (w - 0.001)); [| discriminate Hf].
  simpl in Hf. injection Hf as <- <-.
  split; [lia | eauto].
Qed.

Lemma find_nadir_index_none (f : list Q) (fv : option Q) :
  find_nadir f = Ok (None, fv) -> fv = None.
Proof.
  unfold find_nadir. destruct (argmin f) as [i |]; [| discriminate].
  cbn [bind].
  destruct (Z.of_nat i <? Z.of_nat (length f) - 1)%Z;
    [| now intros [= <-]].
  destruct (0 <? Z.of_nat i)%Z; [| now intros [= <-]].
  destruct (getitem f (Z.of_nat i)) as [v |]; [| discriminate].
  cbn [bind].
  destruct (getitem f (-1)) as [w |]; [| discriminate].
  cbn [bind].
  destruct (Qle_bool v (w - 0.001)); [discriminate | now intros [= <-]].
Qed.

(** X16: when the time and frequency sequences have the same length (and
    are not empty), the nadir marker of [plot_freq_response] never fails:
    [t[i_nadir]] is in range.  It is absent exactly when [find_nadir]
    reports no nadir; otherwise it is the sample time and the frequency at
    the nadir index, an index strictly inside the sequence, so that for
    increasing times the marker lies strictly between the first and the
    last time.  On a time sequence too short for the index, the lookup
    raises [IndexError]. *)
Theorem nadir_marker_in_range (t f : list Q) :
  (length t = length f -> f <> [] ->
   exists m,
     nadir_marker t f = Ok m /\
     (m = None <-> find_nadir f = Ok (None, None)) /\
     (forall t_nadir fv, m = Some (t_nadir, fv) ->
        exists i v,
          find_nadir f = Ok (Some i, Some v) /\ fv = Some v /\
          (0 < i < length t - 1)%nat /\
          nth_error t i = Some t_nadir /\ nth_error f i = Some v /\
          ((forall j k x y, (j < k)%nat -> nth_error t j = Some x ->
              nth_error t k = Some y -> x < y) ->
           forall t_first t_last,
             nth_error t 0 = Some t_first ->
             nth_error t (length t - 1) = Some t_last ->
             t_first < t_nadir < t_last))) /\
  (forall i fv, find_nadir f = Ok (Some i, fv) -> (length t <= i)%nat ->
                nadir_marker t f = Raise IndexError).
Proof.
  split.
  - intros Hlen NE.
    destruct (find_nadir f) as [[[i |] fv] | e] eqn:Hf.
    + pose proof (find_nadir_some_inv f i fv Hf) as (Hi & v & -> & Hv).
      destruct (nth_error t i) as [tn |] eqn:Ht.
      2:{ apply nth_error_None in Ht. lia. }
      exists (Some (tn, Some v)). unfold nadir_marker. rewrite Hf.
      cbn [bind]. rewrite (getitem_nat t i tn Ht). cbn [bind].
      split; [reflexivity | split].
      * split; discriminate.
      * intros t_nadir fv [= <- <-].
        exists i, v.
        split; [reflexivity | split; [reflexivity | split; [lia |]]].
        split; [exact Ht | split; [exact Hv |]].
        intros Hinc t_first t_last Hfirst Hlast. split.
        -- apply (Hinc 0%nat i); auto; lia.
        -- apply (Hinc i (length t - 1)%nat); auto; lia.
    + pose proof (find_nadir_index_none f fv Hf) as ->.
      exists None. unfold nadir_marker. rewrite Hf. cbn [bind].
      split; [reflexivity | split].
      * split; reflexivity.
      * discriminate.
    + exfalso. apply find_nadir_raises_shape in Hf. contradiction.
  - intros i fv Hf Hshort. unfold nadir_marker. rewrite Hf. cbn [bind].
    unfold getitem.
    destruct (Z.ltb_spec (Z.of_nat i) 0) as [L | _]; [lia |].
    destruct (Z.ltb_spec (Z.of_nat i) 0) as [L | _]; [lia |].
    rewrite Nat2Z.id.
    assert (nth_error t i = None) as -> by now apply nth_error_None.
    reflexivity.
Qed.

Lemma nadir_marker_in_range_witness :
  (exists m,
     nadir_marker [-1; 0; 1; 2] [50; 49.8; 49.2; 49.6] = Ok m /\
     (m = None <-> find_nadir [50; 49.8; 49.2; 49.6] = Ok (None, None)) /\
     (forall t_nadir fv, m = Some (t_nadir, fv) ->
        exists i v,
          find_nadir [50; 49.8; 49.2; 49.6] = Ok (Some i, Some v) /\
          fv = Some v /\
          (0 < i < 3)%nat /\
          nth_error [-1; 0; 1; 2] i = Some t_nadir /\
          nth_error [50; 49.8; 49.2; 49.6] i = Some v /\
          ((forall j k x y, (j < k)%nat ->
              nth_error [-1; 0; 1; 2] j = Some x ->
              nth_error [-1; 0; 1; 2] k = Some y -> x < y) ->
           forall t_first t_last,
             nth_error [-1; 0; 1; 2] 0 = Some t_first ->
             nth_error [-1; 0; 1; 2] 3 = Some t_last ->
             t_first < t_nadir < t_last))) /\
  nadir_marker [-1; 0] [50; 49.8; 49.2; 49.6] = Raise IndexError.
Proof.
  split.
  - apply (proj1 (nadir_marker_in_range [-1; 0; 1; 2]
                    [50; 49.8; 49.2; 49.6])).
    + reflexivity.
    + discriminate.
  - apply (proj2 (nadir_marker_in_range [-1; 0] [50; 49.8; 49.2; 49.6])
             2%nat (Some 49.2)).
    + reflexivity.
    + simpl. lia.
Defined.



(** ** The interactive entry point, end to end *)

(** X18: in [freq_response_interact] the plot function receives exactly
    what the simulation returned, with the duration that replaced the
    option (['permanent'] gives [t_fin], ['4 s'] gives 4), [f_min] 49 with
    the zoom and 0 without, and [P_max = 0.14]; the result of the run is
    the result of that plot call.  When the integrator raises, the run
    ends with its exception and the plot function is not called. *)
Theorem freq_response_interact_end_to_end
    (integrate : ivp_call -> result OdeResult)
    (plot : plot_call -> result unit)
    (ΔP_load H s T_fcr : Q) (fcr fcr_lag zoom_freq : bool) (T_ΔP : pyobj)
    (K f_lim : Q) :
  droop_gain fcr ΔP_load s = Ok (K, f_lim) ->
  let T := if eq_str T_ΔP "permanent" then Num t_fin
           else if eq_str T_ΔP "4 s" then Num 4 else T_ΔP in
  let call := sim_call ΔP_load T H T_fcr fcr_lag K in
  let prog := freq_response_interact ΔP_load H s T_fcr fcr fcr_lag zoom_freq
                T_ΔP in
  (forall e plot', integrate call = Raise e ->
                   run integrate plot' prog = Raise e) /\
  (forall sol t f P_fcr fl,
     integrate call = Ok sol ->
     extract_output fcr_lag K f_lim sol = Ok (t, f, P_fcr, fl) ->
     run integrate plot prog =
       plot {| plot_t := sol_t sol; plot_f := f; plot_P_fcr := P_fcr;
               plot_f_lim := f_lim; plot_ΔP_load := ΔP_load;
               plot_T_ΔP := T; plot_H := H; plot_s := s;
               plot_T_fcr := T_fcr; plot_fcr := fcr;
               plot_fcr_lag := fcr_lag;
               plot_f_min := Some (if zoom_freq then 49 else 0);
               plot_P_max := Some 0.14 |}).
Proof.
  intros HK T call prog.
  assert (forall plot',
            run integrate plot' prog =
            (sol <- integrate call ;;
             out <- extract_output fcr_lag K f_lim sol ;;
             let '(t, f, P_fcr, fl) := out in
             plot' {| plot_t := t; plot_f := f; plot_P_fcr := P_fcr;
                      plot_f_lim := fl; plot_ΔP_load := ΔP_load;
                      plot_T_ΔP := T; plot_H := H; plot_s := s;
                      plot_T_fcr := T_fcr; plot_fcr := fcr;
                      plot_fcr_lag := fcr_lag;
                      plot_f_min := Some (if zoom_freq then 49 else 0);
                      plot_P_max := Some 0.14 |})) as Hrun.
  { intros plot'. unfold prog, freq_response_interact. fold T.
    rewrite (sim_freq_response_call _ _ _ _ _ _ _ _ _ HK). fold call.
    cbn [pbind run].
    destruct (integrate call) as [sol |]; [| reflexivity].
    cbn [bind].
    destruct (extract_output fcr_lag K f_lim sol) as [[[[t f] P_fcr] fl] |];
      [| reflexivity].
    cbn [pbind plot_freq_response run bind].
    now destruct (plot' _) as [[] |]. }
  split.
  - intros e plot' He. rewrite Hrun, He. reflexivity.
  - intros sol t f P_fcr fl Hsol Hx. rewrite Hrun, Hsol. cbn [bind].
    rewrite Hx. cbn [bind].
    apply extract_output_inv in Hx as (-> & -> & _). reflexivity.
Qed.

Lemma freq_response_interact_end_to_end_witness :
  let one_sample (c : ivp_call) :=
    Ok {| sol_t := [fst (t_span c)]; sol_y := map (fun v => [v]) (y0 c) |} in
  let record (c : plot_call) :=
    if Qeq_bool (plot_f_lim c) 0 then Ok tt else Raise ValueError in
  run (fun _ => Raise TypeError) no_plot
    (freq_response_interact 0.1 1 0.10 1 false true true (Str "4 s"))
  = Raise TypeError /\
  run one_sample record
    (freq_response_interact 0.1 1 0.10 1 false true true (Str "4 s"))
  = record {| plot_t := [-1]; plot_f := [50]; plot_P_fcr := [0];
              plot_f_lim := 0; plot_ΔP_load := 0.1; plot_T_ΔP := Num 4;
              plot_H := 1; plot_s := 0.10; plot_T_fcr := 1;
              plot_fcr := false; plot_fcr_lag := true;
              plot_f_min := Some 49; plot_P_max := Some 0.14 |}.
Proof.
  intros one_sample record.
  assert (droop_gain false 0.1 0.10 = Ok (0, 0)) as HK by reflexivity.
  split.
  - apply (proj1 (freq_response_interact_end_to_end
                    (fun _ => Raise TypeError) no_plot
                    0.1 1 0.10 1 false true true (Str "4 s") 0 0 HK)).
    reflexivity.
  - apply (proj2 (freq_response_interact_end_to_end one_sample record
                    0.1 1 0.10 1 false true true (Str "4 s") 0 0 HK)
             {| sol_t := [-1]; sol_y := [[50]; [0]] |} [-1] [50] [0] 0);
      reflexivity.
Defined.

(** ** The sign of the swing equation *)

(** X19: for a positive inertia and a positive frequency, on a state of
    the right length and for a duration [T_ΔP], the derivative of the
    frequency has the sign of the net power [-P_load + P_fcr], with [P_fcr]
    the second state component with the lag and [-K*(f - f0)] without: the
    frequency rises when the regulation power exceeds the load term, falls
    when it is below, and stands still exactly when the two are equal. *)
Theorem frequency_derivative_sign (ΔP_load : Q) (T_ΔP : pyobj)
    (H T_fcr K t f : Q) (fcr_lag : bool) (rest : list Q) :
  is_duration T_ΔP ->
  (fcr_lag = true -> rest <> []) ->
  0 < H -> 0 < f ->
  exists P_load z tail,
    P_load_at ΔP_load T_ΔP t = Ok P_load /\
    fder ΔP_load T_ΔP T_fcr fcr_lag (2 * H * Sg / Ω0 ^ 2) K t (f :: rest)
    = Ok (Some z :: tail) /\
    let P_fcr := if fcr_lag then hd 0 rest else - K * (f - f0) in
    (0 < z <-> P_load < P_fcr) /\ (z < 0 <-> P_fcr < P_load) /\
    (z == 0 <-> P_fcr == P_load).
Proof.
  intros Hd Hlen HH Hf.
  destruct (P_load_at_duration ΔP_load T_ΔP t Hd) as (L & HP).
  pose proof (JΩ_pos H f HH Hf) as Hpos.
  assert (~ 2 * H * Sg / Ω0 ^ 2 * (2 * pi * f) == 0) as NZ by lra.
  exists L.
  destruct fcr_lag.
  - destruct rest as [| P rest]; [now destruct (Hlen eq_refl) |].
    rewrite fder_lag_eq.
    rewrite (swing_finite _ _ _ _ _ _ _ HP NZ). cbn [bind].
    do 2 eexists. split; [exact HP | split; [reflexivity |]].
    cbn [hd].
    destruct (swing_sign (- L + P) _ _ Hpos two_pi_pos) as (Hp & Hn & Hz).
    rewrite Hp, Hn, Hz.
    repeat split; intros HH'; lra.
  - rewrite fder_no_lag_eq.
    rewrite (swing_finite _ _ _ _ _ _ _ HP NZ). cbn [bind].
    do 2 eexists. split; [exact HP | split; [reflexivity |]].
    cbv zeta.
    destruct (swing_sign (- L + - K * (f - f0)) _ _ Hpos two_pi_pos)
      as (Hp & Hn & Hz).
    rewrite Hp, Hn, Hz.
    set (P := - K * (f - f0)).
    repeat split; intros HH'; lra.
Qed.

Lemma frequency_derivative_sign_witness :
  exists P_load z tail,
    P_load_at 0.1 (Num 10) 2 = Ok P_load /\
    fder 0.1 (Num 10) 1 true (2 * 3 * Sg / Ω0 ^ 2) 0.2 2 [49.8; 0.03]
    = Ok (Some z :: tail) /\
    let P_fcr := hd 0 [0.03] in
    (0 < z <-> P_load < P_fcr) /\ (z < 0 <-> P_fcr < P_load) /\
    (z == 0 <-> P_fcr == P_load).
Proof.
  apply (frequency_derivative_sign 0.1 (Num 10) 3 1 0.2 2 49.8 true [0.03]).
  - exact I.
  - discriminate.
  - reflexivity.
  - reflexivity.
Defined.

(** ** Runs without regulation *)

(** X20: with the regulation off the returned floor is 0.  Without the
    lag, the run returns the frequency row of the solution and a
    regulation power with one value per frequency sample, each of them
    zero.  With the lag, the run returns the first two rows of the
    solution as they are; the state component they come from starts at 0,
    and its derivative from [fder] is 0 whenever it is 0 (time constant
    not zero). *)
Theorem no_regulation_outputs
    (integrate : ivp_call -> result OdeResult)
    (plot : plot_call -> result unit)
    (ΔP_load : Q) (T_ΔP : pyobj) (H s T_fcr : Q) :
  (forall sol f rows,
     integrate (sim_call ΔP_load T_ΔP H T_fcr false 0) = Ok sol ->
     sol_y sol = f :: rows ->
     exists P_fcr,
       run integrate plot
         (sim_freq_response ΔP_load T_ΔP H s T_fcr false false)
       = Ok (sol_t sol, f, P_fcr, 0) /\
       length P_fcr = length f /\
       Forall (fun p => p == 0) P_fcr) /\
  (forall sol f P_fcr rows,
     integrate (sim_call ΔP_load T_ΔP H T_fcr true 0) = Ok sol ->
     sol_y sol = f :: P_fcr :: rows ->
     run integrate plot
       (sim_freq_response ΔP_load T_ΔP H s T_fcr false true)
     = Ok (sol_t sol, f, P_fcr, 0)) /\
  (forall fcr_lag t f P_fcr f_lim,
     run integrate plot
       (sim_freq_response ΔP_load T_ΔP H s T_fcr false fcr_lag)
     = Ok (t, f, P_fcr, f_lim) ->
     f_lim = 0) /\
  nth_error (y0 (sim_call ΔP_load T_ΔP H T_fcr true 0)) 1 = Some 0 /\
  (~ T_fcr == 0 ->
   forall t x P d,
     nth_error x 1 = Some P -> P == 0 ->
     rhs (sim_call ΔP_load T_ΔP H T_fcr true 0) t x = Ok d ->
     exists z, nth_error d 1 = Some (Some z) /\ z == 0).
Proof.
  assert (droop_gain false ΔP_load s = Ok (0, 0)) as HK by reflexivity.
  split; [| split; [| split; [| split]]].
  - intros sol f rows Hsol Hy.
    exists (map (fun fi => - 0 * (fi - f0)) f).
    split; [| split].
    + apply (run_sim_freq_response_returns integrate plot ΔP_load T_ΔP H s
               T_fcr false false 0 0 sol _ HK Hsol).
      now apply extract_output_no_lag with (rows := rows).
    + apply length_map.
    + apply Forall_map, Forall_forall. intros fi _. ring.
  - intros sol f P_fcr rows Hsol Hy.
    apply (run_sim_freq_response_returns integrate plot ΔP_load T_ΔP H s
             T_fcr false true 0 0 sol _ HK Hsol).
    now apply extract_output_lag with (rows := rows).
  - intros fcr_lag t f P_fcr f_lim Hrun.
    apply run_sim_freq_response_inv in Hrun as (K & fl & sol & HK' & _ & Hx).
    apply droop_gain_inv in HK' as (_ & ->).
    now apply extract_output_floor in Hx.
  - reflexivity.
  - intros HT t x P d Hx HP Hd.
    now apply (fder_lag_power_derivative ΔP_load T_ΔP T_fcr
                 (2 * H * Sg / Ω0 ^ 2) t x P d).
Qed.

Lemma no_regulation_outputs_witness :
  (exists t f P_fcr,
     run (euler 12) no_plot
       (sim_freq_response 0.1 (Num t_fin) 1 0.10 1 false false)
     = Ok (t, f, P_fcr, 0) /\
     length P_fcr = length f /\ Forall (fun p => p == 0) P_fcr) /\
  (exists sol f P_fcr rows,
     sol_y sol = f :: P_fcr :: rows /\
     run (euler 12) no_plot
       (sim_freq_response 0.1 (Num t_fin) 1 0.10 1 false true)
     = Ok (sol_t sol, f, P_fcr, 0)) /\
  (exists d z,
     rhs (sim_call 0.1 (Num t_fin) 1 1 true 0) 2 [49.8; 0] = Ok d /\
     nth_error d 1 = Some (Some z) /\ z == 0).
Proof.
  pose proof (no_regulation_outputs (euler 12) no_plot 0.1 (Num t_fin) 1
                0.10 1) as (Hno_lag & Hlag & _ & _ & Hder).
  split; [| split].
  - destruct (euler 12 (sim_call 0.1 (Num t_fin) 1 1 false 0))
      as [sol |] eqn:Hsol; [| vm_compute in Hsol; discriminate Hsol].
    destruct (sol_y sol) as [| f rows] eqn:Hy.
    { vm_compute in Hsol. injection Hsol as <-. discriminate Hy. }
    destruct (Hno_lag sol f rows eq_refl Hy) as (P_fcr & Hrun & Hlen & Hz).
    exists (sol_t sol), f, P_fcr. auto.
  - destruct (euler 12 (sim_call 0.1 (Num t_fin) 1 1 true 0))
      as [sol |] eqn:Hsol; [| vm_compute in Hsol; discriminate Hsol].
    destruct (sol_y sol) as [| f [| P_fcr rows]] eqn:Hy.
    { vm_compute in Hsol. injection Hsol as <-. discriminate Hy. }
    { vm_compute in Hsol. injection Hsol as <-. discriminate Hy. }
    exists sol, f, P_fcr, rows.
    split; [exact Hy | exact (Hlag sol f P_fcr rows eq_refl Hy)].
  - assert (~ 1 == 0) as HT by discriminate.
    destruct (rhs (sim_call 0.1 (Num t_fin) 1 1 true 0) 2 [49.8; 0])
      as [d |] eqn:Hd; [| vm_compute in Hd; discriminate Hd].
    destruct (Hder HT 2 [49.8; 0] 0 d eq_refl (Qeq_refl 0) Hd)
      as (z & Hz & Hz0).
    exists d, z. auto.
Defined.
